(** * The Milvus similarity backend (src/milvus.py), embedded in Rocq

    The adapter is Python code that talks to a remote Milvus service.  The
    embedding keeps the shape of the source:

    - Python values are modelled by the types the code uses them at: IDs are
      strings, [set(...)] is a [gset string], a dict with string keys is a
      [gmap string _], an argument that may be [None] is an [option];
    - a floating-point number is a rational or nan: arithmetic is exact (no
      rounding, no overflow) and nan is what [0.0 / 0] gives;
    - a method of the index is a computation in the monad [M]: it threads the
      state of the world (the remote collection, the list of remote calls
      issued so far, the log records emitted) and may raise an exception;
    - the parts of the Milvus service that the source cannot decide (how a
      search ranks its hits, what an insert does with its columns) are
      variables of the section [Adapter]: every theorem holds for all of
      them. *)

From Stdlib Require Import QArith.
From stdpp Require Import gmap strings list.

(** ** Python exceptions *)

Definition id := string.

(** The [ValueError]s of the source, told apart by their message (format
    string and arguments). *)
Inductive message :=
| UnsupportedMetric (metric : string) (supported : list string)
| AlreadyExist (num_existing : nat) (eg : id)
| NotPresent (num_missing : nat) (eg : id)
| DoNotExist (num_missing_ids : nat) (eg : id)
| NoLabelIds
| NoRetrieveAll
| NoFullIndexNeighbors
| NoLeastSimilarity
| RequiresK (max_k : Z)
| UnsupportedAggregation (aggregation : string).

Inductive exn :=
| ValueError (m : message)
| KeyError (key : option string)
| IndexError
| TypeError
| StopIteration
| RecursionError
| MilvusException.

(** ** MilvusSimilarityConfig *)

Definition _SUPPORTED_METRICS : gmap string string :=
  <["dotproduct" := "IP"]> (<["euclidean" := "L2"]> ∅).

(** [tuple(_SUPPORTED_METRICS.keys())]: a dict keeps insertion order. *)
Definition _SUPPORTED_METRICS_keys : list string := ["dotproduct"; "euclidean"].

(** [d[key]] where [key] may be [None]: the keys of [d] are strings, so
    [None] is never found. *)
Definition getitem {V} (d : gmap string V) (key : option string) : exn + V :=
  match key with
  | None => inl (KeyError None)
  | Some s =>
      match d !! s with
      | Some v => inr v
      | None => inl (KeyError (Some s))
      end
  end.

Record index_params_t := {
  ip_metric_type : string;
  ip_index_type : string;
  ip_params : gmap string Z }.

Record search_params_entry := {
  sp_metric_type : string;
  sp_params : gmap string Z }.

Record MilvusSimilarityConfig := {
  embeddings_field : option string;
  model : option string;
  patches_field : option string;
  supports_prompts : option bool;
  metric : option string;
  collection_name : string;
  _uri : string;
  user : string;
  password : string;
  consistency_level : string;
  index_params : index_params_t;
  search_params : gmap string search_params_entry }.

(** [metric is not None and metric not in _SUPPORTED_METRICS] *)
Definition unsupported_metric (metric : option string) : bool :=
  match metric with
  | None => false
  | Some m => bool_decide (_SUPPORTED_METRICS !! m = None)
  end.

(** [MilvusSimilarityConfig.__init__]; the base-class initialiser only stores
    its four fields. *)
Definition MilvusSimilarityConfig_init
    (embeddings_field model patches_field : option string)
    (supports_prompts : option bool) (metric : option string)
    (collection_name uri user password consistency_level : string)
  : exn + MilvusSimilarityConfig :=
  if unsupported_metric metric then
    inl (ValueError (UnsupportedMetric (default "" metric) _SUPPORTED_METRICS_keys))
  else
    match getitem _SUPPORTED_METRICS metric with
    | inl e => inl e
    | inr metric_type =>
        let index_params :=
          {| ip_metric_type := metric_type;
             ip_index_type := "HNSW";
             ip_params := <["M" := 8%Z]> (<["efConstruction" := 64%Z]> ∅) |} in
        match getitem _SUPPORTED_METRICS metric with
        | inl e => inl e
        | inr metric_type' =>
            inr {| embeddings_field := embeddings_field;
                   model := model;
                   patches_field := patches_field;
                   supports_prompts := supports_prompts;
                   metric := metric;
                   collection_name := collection_name;
                   _uri := uri;
                   user := user;
                   password := password;
                   consistency_level := consistency_level;
                   index_params := index_params;
                   search_params :=
                     <["HNSW" := {| sp_metric_type := metric_type';
                                    sp_params := <["ef" := 10%Z]> ∅ |}]> ∅ |}
        end
    end.

Definition max_k (config : MilvusSimilarityConfig) : Z := 16384.
Definition supports_least_similarity (config : MilvusSimilarityConfig) : bool := false.
Definition supported_aggregations (config : MilvusSimilarityConfig) : list string := ["mean"].

(** ** numpy arrays

    The arrays the adapter handles are float arrays of one or two dimensions.
    A two-dimensional array records its number of columns, so that an array
    of shape [(0, d)] exists. *)

(** A float: a rational, or nan. *)
Inductive float :=
| Finite (x : Q)
| NaN.

Declare Scope float_scope.
Delimit Scope float_scope with float.
Bind Scope float_scope with float.

(** Integer literals as floats: [1%float] is [Finite 1]. *)
Definition float_of_Z (z : Z) : float := Finite (inject_Z z).

Definition float_to_Z (x : float) : option Z :=
  match x with
  | Finite (Qmake z 1) => Some z
  | _ => None
  end.

Number Notation float float_of_Z float_to_Z : float_scope.

(** [a + b]: nan is contagious. *)
Definition fadd (a b : float) : float :=
  match a, b with
  | Finite x, Finite y => Finite (x + y)
  | _, _ => NaN
  end.

(** The sum of a sequence of floats, [0.0] for the empty one. *)
Definition fsum (l : list float) : float := foldr fadd 0%float l.

(** The mean of a sequence of floats: its sum over its length.  For the
    empty sequence this is [0.0 / 0], which is nan. *)
Definition column_mean (col : list float) : float :=
  match col with
  | [] => NaN
  | _ :: _ =>
      match fsum col with
      | Finite s => Finite (s / inject_Z (Z.of_nat (length col)))
      | NaN => NaN
      end
  end.

Inductive ndarray :=
| Arr1 (v : list float)
| Arr2 (ncols : nat) (rows : list (list float)).

Definition ndim (a : ndarray) : nat :=
  match a with Arr1 _ => 1 | Arr2 _ _ => 2 end.

(** [a.shape[1]]: the shape of a 1-D array is a 1-tuple. *)
Definition shape_1 (a : ndarray) : exn + nat :=
  match a with Arr1 _ => inl IndexError | Arr2 ncols _ => inr ncols end.

(** [a.ravel()] *)
Definition ravel (a : ndarray) : list float :=
  match a with Arr1 v => v | Arr2 _ rows => concat rows end.

(** What iterating over an array yields, after [tolist()]: a float for a 1-D
    array, a list of floats (a row) for a 2-D array. *)
Inductive pyvalue :=
| Float (x : float)
| FloatList (v : list float).

(** [[e.tolist() for e in a]] *)
Definition tolist_each (a : ndarray) : list pyvalue :=
  match a with
  | Arr1 v => map Float v
  | Arr2 _ rows => map FloatList rows
  end.

(** [np.delete(l, inds)] on a 1-D sequence: an index out of bounds raises. *)
Definition np_delete {A} (l : list A) (inds : list nat) : exn + list A :=
  if forallb (λ i, i <? length l)%nat inds
  then inr (snd <$> filter (λ p, p.1 ∉ inds) (imap pair l))
  else inl IndexError.

(** [np.delete(a, inds)] without [axis]: numpy applies the indices to the
    flattened array and returns a 1-D array. *)
Definition np_delete_noaxis (a : ndarray) (inds : list nat) : exn + ndarray :=
  match np_delete (ravel a) inds with
  | inl e => inl e
  | inr v => inr (Arr1 v)
  end.

(** [a.mean(axis=0)] of a 2-D array: one mean per column.  An array without
    rows has nan in every column. *)
Definition mean_axis0 (ncols : nat) (rows : list (list float)) : list float :=
  (λ j, column_mean ((λ r, nth j r 0%float) <$> rows)) <$> seq 0 ncols.

(** [np.array(vectors)] for a list of equally long vectors; the empty list
    gives an array of shape [(0,)]. *)
Definition np_array (vectors : list (list float)) : ndarray :=
  match vectors with
  | [] => Arr1 []
  | v :: _ => Arr2 (length v) vectors
  end.

(** [a[0, :]]: two indices need two dimensions, and row 0 must exist. *)
Definition first_row (a : ndarray) : exn + ndarray :=
  match a with
  | Arr1 _ => inl IndexError
  | Arr2 _ [] => inl IndexError
  | Arr2 _ (r :: _) => inr (Arr1 r)
  end.

(** ** fiftyone.core.utils.iter_batches

    Chunks of [batch_size] elements, the last one possibly shorter; the
    generator stops at the first empty chunk.  Every chunk consumes at least
    one element, so [length l] rounds are enough. *)
Fixpoint iter_batches_aux {A} (fuel : nat) (l : list A) (batch_size : nat)
  : list (list A) :=
  match fuel with
  | 0 => []
  | S fuel' =>
      match take batch_size l with
      | [] => []
      | chunk => chunk :: iter_batches_aux fuel' (drop batch_size l) batch_size
      end
  end.

Definition iter_batches {A} (l : list A) (batch_size : nat) : list (list A) :=
  iter_batches_aux (length l) l batch_size.

(** [zip(a, b, c)] stops with the shortest argument. *)
Fixpoint zip3 {A B C} (a : list A) (b : list B) (c : list C) : list (A * B * C) :=
  match a, b, c with
  | x :: a', y :: b', z :: c' => (x, y, z) :: zip3 a' b' c'
  | _, _, _ => []
  end.

(** ** The remote service and the state of the world *)

(** A stored entity: the three fields of the schema of [_create_collection]. *)
Record row := { pk : id; vector : list float; sample_id : id }.

Record collection := { dim : nat; rows : list row }.

(** The only filter expression the adapter builds: [pk in ["a","b",...]]. *)
Inductive expr :=
| PkIn (ids : list id).

Definition matches (e : expr) (r : row) : Prop :=
  match e with PkIn ids => pk r ∈ ids end.

Global Instance matches_dec e r : Decision (matches e r).
Proof. destruct e; simpl; apply _. Defined.

(** The IDs among [ids] that are primary keys of [c]. *)
Definition existing_in (c : collection) (ids : list id) : gset id :=
  list_to_set (pk <$> filter (matches (PkIn ids)) (rows c)).

Record hit := { hit_id : id; score : float }.

(** The argument of [Collection.insert]: three parallel columns. *)
Definition insert_data : Type := list id * list pyvalue * list id.

Inductive call :=
| HasCollection
| CreateCollection (dimension : nat)
| Query (e : expr) (output_fields : list string)
| Delete (e : expr)
| Insert (data : insert_data)
| Search (data : list float) (e : expr) (limit : Z).

Inductive log_record :=
| WarnOverwriting (num_existing : nat)
| WarnSkippingExisting (num_existing : nat)
| WarnIgnoringMissing (num_missing : nat)
| WarnIgnoringSampleIds
| WarnSkippingMissing (num_missing_ids : nat)
| ErrorGetEmbedding (collection_name : string).

Record world := {
  store : option collection;
  calls : list call;
  logged : list log_record }.

Definition is_search (c : call) : bool :=
  match c with Search _ _ _ => true | _ => false end.

(** Two behaviours a service can have, used to run the adapter on concrete
    inputs: an insert that appends one entity per position of the primary-key
    column when the three columns are rows of equal number (and is refused
    otherwise), and a search that returns the matching entities in stored
    order. *)
Fixpoint as_rows (ids : list id) (embeddings : list pyvalue) (sample_ids : list id)
  : option (list row) :=
  match ids, embeddings, sample_ids with
  | [], [], [] => Some []
  | i :: ids', FloatList v :: embeddings', s :: sample_ids' =>
      match as_rows ids' embeddings' sample_ids' with
      | Some rs => Some ({| pk := i; vector := v; sample_id := s |} :: rs)
      | None => None
      end
  | _, _, _ => None
  end.

Definition append_insert (c : collection) (data : insert_data) : exn + collection :=
  let '(ids, embeddings, sample_ids) := data in
  match as_rows ids embeddings sample_ids with
  | Some rs => inr {| dim := dim c; rows := rows c ++ rs |}
  | None => inl MilvusException
  end.

Definition scan_search (c : collection) (data : list float) (e : expr) (limit : Z)
  : exn + list hit :=
  inr ((λ r, {| hit_id := pk r; score := 0%float |})
         <$> take (Z.to_nat limit) (filter (matches e) (rows c))).

(** ** The monad of the adapter's methods *)

Definition M (A : Type) : Type := world → (exn + A) * world.

Global Instance M_ret : MRet M := λ A a w, (inr a, w).

Global Instance M_bind : MBind M := λ A B f m w,
  match m w with
  | (inl e, w') => (inl e, w')
  | (inr a, w') => f a w'
  end.

Definition raise {A} (e : exn) : M A := λ w, (inl e, w).

Definition lift {A} (x : exn + A) : M A :=
  match x with inl e => raise e | inr a => mret a end.

Definition record_call (c : call) : M unit := λ w,
  (inr (), {| store := store w; calls := calls w ++ [c]; logged := logged w |}).

Definition log (r : log_record) : M unit := λ w,
  (inr (), {| store := store w; calls := calls w; logged := logged w ++ [r] |}).

Definition get_store : M (option collection) := λ w, (inr (store w), w).

Definition put_store (s : option collection) : M unit := λ w,
  (inr (), {| store := s; calls := calls w; logged := logged w |}).

Definition when (b : bool) (m : M unit) : M unit := if b then m else mret ().

(** [for x in l: body] *)
Fixpoint for_ {A} (l : list A) (body : A → M unit) : M unit :=
  match l with
  | [] => mret ()
  | x :: l' => body x;; for_ l' body
  end.

(** A loop that updates local variables [acc]. *)
Fixpoint for_acc {A B} (l : list A) (acc : B) (body : B → A → M B) : M B :=
  match l with
  | [] => mret acc
  | x :: l' => acc' ← body acc x; for_acc l' acc' body
  end.

(** ** MilvusSimilarityIndex *)

(** The index object: its config, and the IDs the host currently considers
    live ([current_sample_ids] and [current_label_ids] are properties of the
    base class). *)
Record MilvusSimilarityIndex := {
  config : MilvusSimilarityConfig;
  current_sample_ids : list id;
  current_label_ids : list id }.

(** The result of [get_embeddings]: [(embeddings, sample_ids, label_ids)]. *)
Definition embeddings_result : Type := list (list float) * list id * option (list id).

(** What the three [_get_*_embeddings*] helpers return:
    [(found_embeddings, found_sample_ids, found_label_ids, missing_ids)]. *)
Definition found_result : Type := list (list float) * list id * option (list id) * list id.

(** The query of [kneighbors]: an ID, a list of IDs, or numeric data. *)
Inductive query_arg :=
| QueryId (i : id)
| QueryIds (ids : list id)
| QueryArray (a : ndarray).

(** The neighbours returned: a flat list for a single query, one list per
    query vector otherwise. *)
Inductive neighbors (A : Type) :=
| Flat (l : list A)
| PerQuery (l : list (list A)).
Arguments Flat {A} l.
Arguments PerQuery {A} l.

Section Adapter.

(** The service's answer to a search with one query vector, and what an
    insert makes of the collection. *)
Variable milvus_search : collection → list float → expr → Z → exn + list hit.
Variable milvus_insert : collection → insert_data → exn + collection.

(** [utility.has_collection(self.config.collection_name, using=self.alias)] *)
Definition has_collection (self : MilvusSimilarityIndex) : M bool :=
  record_call HasCollection;;
  s ← get_store;
  mret (bool_decide (is_Some s)).

(** [_create_collection]: the schema fixes the dimension of the vector field.
    The service refuses a name that is taken. *)
Definition _create_collection (self : MilvusSimilarityIndex) (dimension : nat) : M unit :=
  record_call (CreateCollection dimension);;
  s ← get_store;
  match s with
  | Some _ => raise MilvusException
  | None => put_store (Some {| dim := dimension; rows := [] |})
  end.

(** [get_collection]: a handle on the collection, which has to exist. *)
Definition get_collection (self : MilvusSimilarityIndex) : M collection :=
  s ← get_store;
  match s with
  | Some c => mret c
  | None => raise MilvusException
  end.

(** [Collection.query(expr, output_fields)] *)
Definition collection_query (self : MilvusSimilarityIndex) (e : expr)
    (output_fields : list string) : M (list row) :=
  c ← get_collection self;
  record_call (Query e output_fields);;
  mret (filter (matches e) (rows c)).

(** [Collection.delete(expr)] *)
Definition collection_delete (self : MilvusSimilarityIndex) (e : expr) : M unit :=
  c ← get_collection self;
  record_call (Delete e);;
  put_store (Some {| dim := dim c; rows := filter (λ r, ¬ matches e r) (rows c) |}).

(** [Collection.insert(data)] *)
Definition collection_insert (self : MilvusSimilarityIndex) (data : insert_data) : M unit :=
  c ← get_collection self;
  record_call (Insert data);;
  c' ← lift (milvus_insert c data);
  put_store (Some c').

(** [Collection.search(data=[q], anns_field, param, expr, limit)[0]] *)
Definition collection_search (self : MilvusSimilarityIndex) (q : list float) (e : expr)
    (limit : Z) : M (list hit) :=
  c ← get_collection self;
  record_call (Search q e limit);;
  lift (milvus_search c q e limit).

Definition _get_existing_ids (self : MilvusSimilarityIndex) (ids : list id) : M (list row) :=
  collection_query self (PkIn ids) [].

(** Modelled from the spec: [get_existing_ids], which [add_to_index] and
    [remove_from_index] call, is not defined in the source.  The spec has it
    "query remote for which of the effective IDs already exist"; the callers
    use the result as a set of IDs. *)
Definition get_existing_ids (self : MilvusSimilarityIndex) (ids : list id) : M (gset id) :=
  found ← _get_existing_ids self ids;
  mret (list_to_set (pk <$> found)).

(** Modelled from the spec: [get_dim], which
    [_get_patch_embeddings_from_sample_ids] calls, is not defined in the
    source.  The spec fixes the dimension of the vector field when the
    collection is created. *)
Definition get_dim (self : MilvusSimilarityIndex) : M nat :=
  c ← get_collection self;
  mret (dim c).

Definition _delete_ids (self : MilvusSimilarityIndex) (ids : list id) : M unit :=
  collection_delete self (PkIn ids).

Definition _get_embeddings (self : MilvusSimilarityIndex) (ids : list id) : M (list row) :=
  log (ErrorGetEmbedding (collection_name (config self)));;
  collection_query self (PkIn ids) ["pk"; "sample_id"; "vector"].

(** [next(iter(s))] *)
Definition next_iter (s : gset id) : M id :=
  match elements s with
  | [] => raise StopIteration
  | x :: _ => mret x
  end.

Definition add_to_index (self : MilvusSimilarityIndex)
    (embeddings : ndarray) (sample_ids : list id) (label_ids : option (list id))
    (overwrite allow_existing warn_existing : bool) (batch_size : nat) : M unit :=
  has ← has_collection self;
  when (negb has)
    (dimension ← lift (shape_1 embeddings); _create_collection self dimension);;
  let ids := match label_ids with Some label_ids => label_ids | None => sample_ids end in
  existing_ids ←
    (if warn_existing || negb allow_existing || negb overwrite then
       existing_ids ← get_existing_ids self ids;
       let num_existing := size existing_ids in
       when (0 <? num_existing)%nat
         (when (negb allow_existing)
            (eg ← next_iter existing_ids;
             raise (ValueError (AlreadyExist num_existing eg)));;
          when warn_existing
            (if overwrite then log (WarnOverwriting num_existing)
             else log (WarnSkippingExisting num_existing)));;
       mret existing_ids
     else mret ∅);
  '(embeddings, sample_ids, label_ids) ←
    (if bool_decide (existing_ids ≠ ∅) && negb overwrite then
       let del_inds := (filter (λ p, p.2 ∈ existing_ids) (imap pair ids)).*1 in
       embeddings ← lift (np_delete_noaxis embeddings del_inds);
       sample_ids ← lift (np_delete sample_ids del_inds);
       label_ids ←
         match label_ids with
         | Some label_ids => l ← lift (np_delete label_ids del_inds); mret (Some l)
         | None => mret None
         end;
       mret (embeddings, sample_ids, label_ids)
     else if bool_decide (existing_ids ≠ ∅) && overwrite then
       _delete_ids self (elements existing_ids);;
       mret (embeddings, sample_ids, label_ids)
     else mret (embeddings, sample_ids, label_ids));
  let embeddings := tolist_each embeddings in
  for_ (zip3 (iter_batches embeddings batch_size)
             (iter_batches ids batch_size)
             (iter_batches sample_ids batch_size))
    (λ '(_embeddings, _ids, _sample_ids),
       collection_insert self (_ids, _embeddings, _sample_ids)).

Definition remove_from_index (self : MilvusSimilarityIndex)
    (sample_ids label_ids : option (list id)) (allow_missing warn_missing : bool) : M unit :=
  let ids := match label_ids with Some label_ids => Some label_ids | None => sample_ids end in
  match ids with
  | None => raise TypeError (* [None] cannot be iterated *)
  | Some ids =>
      when (negb allow_missing || warn_missing)
        (existing_ids ← get_existing_ids self ids;
         let missing_ids := existing_ids ∖ list_to_set ids in
         let num_missing := size missing_ids in
         when (0 <? num_missing)%nat
           (when (negb allow_missing)
              (raise TypeError (* [missing_ids[0]]: a set has no subscript *));;
            when warn_missing (log (WarnIgnoringMissing num_missing))));;
      _delete_ids self ids
  end.

Definition _get_sample_embeddings (self : MilvusSimilarityIndex)
    (sample_ids : option (list id)) (batch_size : nat) : M found_result :=
  match sample_ids with
  | None => raise (ValueError NoRetrieveAll)
  | Some sample_ids =>
      '(found_embeddings, found_sample_ids) ←
        for_acc (iter_batches sample_ids batch_size) ([], [])
          (λ '(found_embeddings, found_sample_ids) batch_ids,
             response ← _get_embeddings self batch_ids;
             mret (found_embeddings ++ (vector <$> response),
                   found_sample_ids ++ (sample_id <$> response)));
      let missing_ids :=
        elements ((list_to_set sample_ids : gset id) ∖ list_to_set found_sample_ids) in
      mret (found_embeddings, found_sample_ids, None, missing_ids)
  end.

Definition _get_patch_embeddings_from_sample_ids (self : MilvusSimilarityIndex)
    (sample_ids : list id) (batch_size : nat) : M found_result :=
  d ← get_dim self;
  let query_vector := replicate d 0%float in
  let top_k := Z.min (Z.of_nat batch_size) (max_k (config self)) in
  '(found_embeddings, found_sample_ids, found_label_ids) ←
    for_acc (iter_batches sample_ids batch_size) ([], [], [])
      (λ '(found_embeddings, found_sample_ids, found_label_ids) batch_ids,
         response ← collection_search self query_vector (PkIn batch_ids) top_k;
         let ids := hit_id <$> response in
         response ← _get_embeddings self ids;
         mret (found_embeddings ++ (vector <$> response),
               found_sample_ids ++ (sample_id <$> response),
               found_label_ids ++ (pk <$> response)));
  let missing_ids :=
    elements ((list_to_set sample_ids : gset id) ∖ list_to_set found_sample_ids) in
  mret (found_embeddings, found_sample_ids, Some found_label_ids, missing_ids).

(** [r["vector"]] where [r] is a numpy array: an array takes no string
    index. *)
Definition ndarray_getitem_str {A} (r : list (list float)) (key : string) : M A :=
  raise IndexError.

(** [_get_patch_embeddings_from_label_ids], over the [get_embeddings] it
    calls with the batch as its only argument.  The loop [for r in response]
    runs over the tuple that [get_embeddings] returns, whose first component
    is the array of embeddings; the first statement of the loop body reads
    [r["vector"]] and raises, so the two appends after it are never
    reached. *)
Definition _get_patch_embeddings_from_label_ids_body
    (get_embeddings : option (list id) → M embeddings_result)
    (label_ids : option (list id)) (batch_size : nat) : M found_result :=
  match label_ids with
  | None => raise (ValueError NoRetrieveAll)
  | Some label_ids =>
      '(found_embeddings, found_sample_ids, found_label_ids) ←
        for_acc (iter_batches label_ids batch_size) ([], [], [])
          (λ '(found_embeddings, found_sample_ids, found_label_ids) batch_ids,
             response ← get_embeddings (Some batch_ids);
             let '(r, _, _) := response in
             v ← ndarray_getitem_str r "vector";
             mret (found_embeddings ++ [v], found_sample_ids, found_label_ids));
      let missing_ids :=
        elements ((list_to_set label_ids : gset id) ∖ list_to_set found_label_ids) in
      mret (found_embeddings, found_sample_ids, Some found_label_ids, missing_ids)
  end.

(** The body of [get_embeddings], over the
    [_get_patch_embeddings_from_label_ids] it calls. *)
Definition get_embeddings_body
    (_get_patch_embeddings_from_label_ids : option (list id) → nat → M found_result)
    (self : MilvusSimilarityIndex)
    (sample_ids label_ids : option (list id)) (allow_missing warn_missing : bool)
  : M embeddings_result :=
  match label_ids with
  | Some _ =>
      when (bool_decide (patches_field (config self) = None))
        (raise (ValueError NoLabelIds));;
      when (bool_decide (sample_ids ≠ None)) (log WarnIgnoringSampleIds)
  | None => mret ()
  end;;
  '(embeddings, sample_ids', label_ids', missing_ids) ←
    match sample_ids, patches_field (config self) with
    | Some sample_ids, Some _ =>
        _get_patch_embeddings_from_sample_ids self sample_ids 100
    | _, Some _ => _get_patch_embeddings_from_label_ids label_ids 1000
    | _, None => _get_sample_embeddings self sample_ids 1000
    end;
  let num_missing_ids := length missing_ids in
  when (0 <? num_missing_ids)%nat
    (when (negb allow_missing)
       match missing_ids with
       | eg :: _ => raise (ValueError (DoNotExist num_missing_ids eg))
       | [] => raise IndexError
       end;;
     when warn_missing (log (WarnSkippingMissing num_missing_ids)));;
  mret (embeddings, sample_ids', label_ids').

(** [get_embeddings] and [_get_patch_embeddings_from_label_ids] call each
    other; [depth] bounds the nesting of the calls, as the interpreter's
    recursion limit does. *)
Fixpoint get_embeddings_rec (depth : nat) (self : MilvusSimilarityIndex)
    (sample_ids label_ids : option (list id)) (allow_missing warn_missing : bool)
  : M embeddings_result :=
  match depth with
  | 0 => raise RecursionError
  | S depth' =>
      get_embeddings_body
        (_get_patch_embeddings_from_label_ids_body
           (λ ids, get_embeddings_rec depth' self ids None true false))
        self sample_ids label_ids allow_missing warn_missing
  end.

(** The interpreter's default recursion limit. *)
Definition recursion_limit : nat := 1000.

Definition get_embeddings : MilvusSimilarityIndex → option (list id) →
    option (list id) → bool → bool → M embeddings_result :=
  get_embeddings_rec recursion_limit.

Definition _get_patch_embeddings_from_label_ids (self : MilvusSimilarityIndex)
    (label_ids : option (list id)) (batch_size : nat) : M found_result :=
  _get_patch_embeddings_from_label_ids_body
    (λ ids, get_embeddings self ids None true false) label_ids batch_size.

Definition _parse_neighbors_query (self : MilvusSimilarityIndex) (query : query_arg)
  : M ndarray :=
  let by_ids (query_ids : list id) (single_query : bool) : M ndarray :=
    response ← _get_embeddings self query_ids;
    let query := np_array (vector <$> response) in
    if single_query then lift (first_row query) else mret query in
  match query with
  | QueryId i => by_ids [i] true
  | QueryIds [] => mret (Arr1 []) (* [np.asarray([])] is an array of floats *)
  | QueryIds ids => by_ids ids false
  | QueryArray a => mret a
  end.

(** The IDs the search is scoped to: those the host considers live, by the
    kind of index. *)
Definition index_ids (self : MilvusSimilarityIndex) : list id :=
  match patches_field (config self) with
  | Some _ => current_label_ids self
  | None => current_sample_ids self
  end.

(** The query vectors the search loop runs over: [[query]] for a single
    query, the rows of the batch otherwise. *)
Definition query_vectors (query : ndarray) : list (list float) :=
  match query with
  | Arr1 v => [v]
  | Arr2 _ rows => rows
  end.

Definition _kneighbors (self : MilvusSimilarityIndex)
    (query : option query_arg) (k : option Z) (reverse : bool)
    (aggregation : option string) (return_dists : bool)
  : M (neighbors id * option (neighbors float)) :=
  match query with
  | None => raise (ValueError NoFullIndexNeighbors)
  | Some query =>
  if reverse then raise (ValueError NoLeastSimilarity) else
  match k with
  | None => raise (ValueError (RequiresK (max_k (config self))))
  | Some k =>
  if (max_k (config self) <? k)%Z then
    raise (ValueError (RequiresK (max_k (config self)))) else
  if bool_decide (aggregation ∉ [None; Some "mean"]) then
    raise (ValueError (UnsupportedAggregation (default "" aggregation))) else
  query ← _parse_neighbors_query self query;
  let query :=
    match query with
    | Arr2 ncols rows =>
        if bool_decide (aggregation = Some "mean")
        then Arr1 (mean_axis0 ncols rows) else query
    | Arr1 _ => query
    end in
  let single_query := bool_decide (ndim query = 1) in
  let expr := PkIn (index_ids self) in
  '(ids, dists) ←
    for_acc (query_vectors query) ([], [])
      (λ '(ids, dists) q,
         response ← collection_search self q expr k;
         mret (ids ++ [hit_id <$> response],
               if return_dists then dists ++ [score <$> response] else dists));
  if single_query then
    ids0 ← match ids with x :: _ => mret x | [] => raise IndexError end;
    if return_dists then
      dists0 ← match dists with x :: _ => mret x | [] => raise IndexError end;
      mret (Flat ids0, Some (Flat dists0))
    else mret (Flat ids0, None)
  else
    mret (PerQuery ids, if return_dists then Some (PerQuery dists) else None)
  end
  end.

End Adapter.

(** [adds P m]: whatever the outcome, [m] only appends remote calls that
    satisfy [P] to the record of calls. *)
Definition adds {A} (P : call → Prop) (m : M A) : Prop :=
  ∀ w, ∃ added, calls (m w).2 = calls w ++ added ∧ Forall P added.

(** ** Concrete inputs *)

Definition example_config (patches_field : option string) : MilvusSimilarityConfig :=
  {| embeddings_field := None;
     model := None;
     patches_field := patches_field;
     supports_prompts := None;
     metric := Some "euclidean";
     collection_name := "ClientCollection";
     _uri := "http://localhost:19530";
     user := "";
     password := "";
     consistency_level := "Session";
     index_params :=
       {| ip_metric_type := "L2"; ip_index_type := "HNSW";
          ip_params := <["M" := 8%Z]> (<["efConstruction" := 64%Z]> ∅) |};
     search_params :=
       <["HNSW" := {| sp_metric_type := "L2"; sp_params := <["ef" := 10%Z]> ∅ |}]> ∅ |}.

(** An index over samples, and one over patches. *)
Definition sample_index : MilvusSimilarityIndex :=
  {| config := example_config None;
     current_sample_ids := ["x"; "y"];
     current_label_ids := [] |}.

Definition patch_index : MilvusSimilarityIndex :=
  {| config := example_config (Some "ground_truth");
     current_sample_ids := ["s"];
     current_label_ids := ["l"] |}.

(** A collection that holds the vector [V1 = [1, 0]] under the ID ["x"]. *)
Definition collection_x : collection :=
  {| dim := 2;
     rows := [ {| pk := "x"; vector := [1; 0]%float; sample_id := "x" |} ] |}.

Definition world_x : world :=
  {| store := Some collection_x; calls := []; logged := [] |}.

(** A collection that holds one patch ["l"] of the sample ["s"]. *)
Definition collection_patch : collection :=
  {| dim := 2;
     rows := [ {| pk := "l"; vector := [1; 0]%float; sample_id := "s" |} ] |}.

Definition world_patch : world :=
  {| store := Some collection_patch; calls := []; logged := [] |}.

(** No collection yet. *)
Definition world_empty : world :=
  {| store := None; calls := []; logged := [] |}.

(** ** Reading and storing *)

(** [reads_only m]: [m] leaves the collection as it is, and what it returns
    depends on the world through the collection only. *)
Definition reads_only {A} (m : M A) : Prop :=
  (∀ w, store (m w).2 = store w) ∧
  (∀ w1 w2, store w1 = store w2 → (m w1).1 = (m w2).1).

(** The entities that three parallel columns describe. *)
Definition rows_of_columns (ids : list id) (embeddings : list (list float))
    (sample_ids : list id) : list row :=
  (λ x, {| pk := x.1.1; vector := x.1.2; sample_id := x.2 |})
    <$> zip3 ids embeddings sample_ids.

(** A service that stores what it is given: columns of equal length, whose
    vectors have the dimension of the collection, are appended as entities. *)
Definition stores_rows (milvus_insert : collection → insert_data → exn + collection)
  : Prop :=
  ∀ c ids embeddings sample_ids,
    length embeddings = length ids →
    length sample_ids = length ids →
    Forall (λ e, length e = dim c) embeddings →
    milvus_insert c (ids, FloatList <$> embeddings, sample_ids)
    = inr {| dim := dim c; rows := rows c ++ rows_of_columns ids embeddings sample_ids |}.

(** The IDs that [_parse_neighbors_query] looks up for a query: the ID
    itself, or the IDs of a non-empty list; a query by numbers looks nothing
    up. *)
Definition query_ids (query : option query_arg) : option (list id) :=
  match query with
  | Some (QueryId i) => Some [i]
  | Some (QueryIds (i :: ids)) => Some (i :: ids)
  | _ => None
  end.


(** The entities that the lookups of [batches] return, batch after batch. *)
Definition found_by_batches (c : collection) (batches : list (list id)) : list row :=
  concat ((λ batch_ids, filter (matches (PkIn batch_ids)) (rows c)) <$> batches).

(** * Properties *)

Ltac unfold_M :=
  unfold mbind, M_bind, mret, M_ret, raise, lift, record_call, log,
    get_store, put_store, when in *.

(** ** The helper functions *)

Example iter_batches_5_by_2 : iter_batches [1; 2; 3; 4; 5] 2 = [[1; 2]; [3; 4]; [5]].
Proof. reflexivity. Qed.

Example iter_batches_by_0 : iter_batches [1; 2; 3] 0 = [].
Proof. reflexivity. Qed.

Example np_delete_out_of_bounds : np_delete ["a"; "b"] [2] = inl IndexError.
Proof. reflexivity. Qed.

(** Without [axis], the index counts elements, not rows. *)
Example np_delete_noaxis_flattens :
  np_delete_noaxis (Arr2 2 [[0; 1]%float; [3; 4]%float]) [0] = inr (Arr1 [1; 3; 4]%float).
Proof. reflexivity. Qed.

Example mean_axis0_of_two_rows :
  mean_axis0 2 [[1; 0]; [0; 1]]%float = [Finite (1 # 2); Finite (1 # 2)].
Proof. reflexivity. Qed.

(** An array of shape [(0, 2)] has nan means. *)
Example mean_axis0_of_no_rows : mean_axis0 2 [] = [NaN; NaN].
Proof. reflexivity. Qed.

Example init_euclidean :
  MilvusSimilarityConfig_init None None None None (Some "euclidean")
    "ClientCollection" "http://localhost:19530" "" "" "Session"
  = inr (example_config None).
Proof. reflexivity. Qed.

Lemma iter_batches_aux_cons {A} fuel (x : A) l n :
  iter_batches_aux (S fuel) (x :: l) (S n)
  = (x :: take n l) :: iter_batches_aux fuel (drop n l) (S n).
Proof. reflexivity. Qed.

(** The batches, put together again, are the list: no element is lost for
    want of fuel. *)
Lemma iter_batches_aux_concat {A} fuel (l : list A) n :
  length l ≤ fuel → concat (iter_batches_aux fuel l (S n)) = l.
Proof.
  revert l. induction fuel as [|fuel IH]; intros [|x l] Hlen; simpl in *; try done.
  - lia.
  - rewrite IH; [by rewrite take_drop|].
    rewrite length_drop. lia.
Qed.

Lemma iter_batches_concat {A} (l : list A) n :
  concat (iter_batches l (S n)) = l.
Proof. by apply iter_batches_aux_concat. Qed.

Lemma iter_batches_cons {A} (x : A) l n :
  iter_batches (x :: l) (S n)
  = (x :: take n l) :: iter_batches_aux (length l) (drop n l) (S n).
Proof. reflexivity. Qed.

(** Two loops whose bodies agree run alike. *)
Lemma for_acc_ext {A B} (l : list A) (acc : B) (f g : B → A → M B) w :
  (∀ b a w', a ∈ l → f b a w' = g b a w') → for_acc l acc f w = for_acc l acc g w.
Proof.
  revert acc w. induction l as [|x l IH]; intros acc w Hfg; [done|].
  simpl. unfold mbind, M_bind. rewrite Hfg by left.
  destruct (g acc x w) as [[e|b] w']; [done|].
  apply IH. intros b' a w'' Ha. apply Hfg. by right.
Qed.

Lemma mbind_run {A B} (m : M A) (f : A → M B) w a w' :
  m w = (inr a, w') → (m ≫= f) w = f a w'.
Proof. intros H. unfold mbind, M_bind. by rewrite H. Qed.

Lemma mbind_ext_l {A B} (m1 m2 : M A) (f : A → M B) w :
  (∀ w', m1 w' = m2 w') → (m1 ≫= f) w = (m2 ≫= f) w.
Proof. intros H. unfold mbind, M_bind. by rewrite H. Qed.

Lemma mbind_ext_r {A B} (m : M A) (f g : A → M B) w :
  (∀ a w', f a w' = g a w') → (m ≫= f) w = (m ≫= g) w.
Proof.
  intros H. unfold mbind, M_bind. destruct (m w) as [[e|a] w']; [done|apply H].
Qed.

(** A loop whose body raises at the first element raises. *)
Lemma for_acc_raises {A B} (x : A) (l : list A) (acc : B) (body : B → A → M B) w :
  (∀ w', ∃ e w'', body acc x w' = (inl e, w'')) →
  ∃ e w'', for_acc (x :: l) acc body w = (inl e, w'').
Proof.
  intros Hbody. simpl. unfold mbind, M_bind.
  destruct (Hbody w) as (e & w'' & ->). eauto.
Qed.

(** ** Which remote calls a computation can add *)

Lemma adds_nothing {A} (P : call → Prop) (m : M A) :
  (∀ w, calls (m w).2 = calls w) → adds P m.
Proof. intros H w. exists []. by rewrite H, app_nil_r. Qed.

Lemma adds_ret {A} P (a : A) : adds P (mret a).
Proof. by apply adds_nothing. Qed.

Lemma adds_raise {A} P e : adds P (raise e : M A).
Proof. by apply adds_nothing. Qed.

Lemma adds_lift {A} P (x : exn + A) : adds P (lift x).
Proof. destruct x; [apply adds_raise | apply adds_ret]. Qed.

Lemma adds_log P r : adds P (log r).
Proof. by apply adds_nothing. Qed.

Lemma adds_get_store P : adds P get_store.
Proof. by apply adds_nothing. Qed.

Lemma adds_put_store P s : adds P (put_store s).
Proof. by apply adds_nothing. Qed.

Lemma adds_record_call (P : call → Prop) c : P c → adds P (record_call c).
Proof. intros Hc w. exists [c]. split; [done|]. by constructor. Qed.

Lemma adds_bind {A B} P (m : M A) (f : A → M B) :
  adds P m → (∀ a, adds P (f a)) → adds P (m ≫= f).
Proof.
  intros Hm Hf w. unfold mbind, M_bind.
  destruct (Hm w) as (added & Hcalls & Hadded).
  destruct (m w) as [[e|a] w']; simpl in *; [by exists added|].
  destruct (Hf a w') as (added' & Hcalls' & Hadded').
  exists (added ++ added'). split.
  - by rewrite Hcalls', Hcalls, app_assoc.
  - by apply Forall_app.
Qed.

Lemma adds_when P b (m : M unit) : adds P m → adds P (when b m).
Proof. intros Hm. destruct b; [done|apply adds_ret]. Qed.

Lemma adds_for {A} P (l : list A) (body : A → M unit) :
  (∀ x, x ∈ l → adds P (body x)) → adds P (for_ l body).
Proof.
  induction l as [|x l IH]; intros Hbody; simpl; [apply adds_ret|].
  apply adds_bind; [apply Hbody; by left|].
  intros _. apply IH. intros y Hy. apply Hbody. by right.
Qed.

Lemma elem_of_zip3 {A B C} (a : list A) (b : list B) (c : list C) x y z :
  (x, y, z) ∈ zip3 a b c → x ∈ a ∧ y ∈ b ∧ z ∈ c.
Proof.
  revert b c. induction a as [|x' a IH]; intros [|y' b] [|z' c] H; simpl in H;
    try by apply elem_of_nil in H.
  apply elem_of_cons in H as [[= -> -> ->]|H].
  - repeat split; by left.
  - apply IH in H as (? & ? & ?). repeat split; by right.
Qed.

Section Properties.

Set Default Proof Using "Type".

Variable milvus_search : collection → list float → expr → Z → exn + list hit.
Variable milvus_insert : collection → insert_data → exn + collection.

Variable self : MilvusSimilarityIndex.

Lemma elem_of_existing_in c ids i :
  i ∈ existing_in c ids ↔ i ∈ ids ∧ i ∈ pk <$> rows c.
Proof.
  unfold existing_in. rewrite elem_of_list_to_set, !list_elem_of_fmap.
  split.
  - intros (r & -> & Hr). apply list_elem_of_filter in Hr as [Hm Hr].
    split; [done|]. by exists r.
  - intros (Hi & r & -> & Hr). exists r. split; [done|].
    by apply list_elem_of_filter.
Qed.

Lemma get_existing_ids_run ids w c :
  store w = Some c →
  get_existing_ids self ids w
  = (inr (existing_in c ids),
     {| store := store w; calls := calls w ++ [Query (PkIn ids) []];
        logged := logged w |}).
Proof.
  intros Hc. destruct w as [s cs lg]. simpl in *. subst s.
  reflexivity.
Qed.

Lemma _get_embeddings_run ids w c :
  store w = Some c →
  _get_embeddings self ids w
  = (inr (filter (matches (PkIn ids)) (rows c)),
     {| store := store w;
        calls := calls w ++ [Query (PkIn ids) ["pk"; "sample_id"; "vector"]];
        logged := logged w ++ [ErrorGetEmbedding (collection_name (config self))] |}).
Proof.
  intros Hc. destruct w as [s cs lg]. simpl in *. subst s.
  reflexivity.
Qed.

(** [_get_embeddings] issues no search and leaves the collection alone. *)
Lemma _get_embeddings_calls ids w :
  store (_get_embeddings self ids w).2 = store w ∧
  filter is_search (calls (_get_embeddings self ids w).2) = filter is_search (calls w).
Proof.
  unfold _get_embeddings, collection_query, get_collection. unfold_M. simpl.
  destruct (store w) as [c|] eqn:Hc; simpl; [|done].
  split; [done|]. rewrite filter_app. simpl. by rewrite app_nil_r.
Qed.

(** Resolving the query issues no search and leaves the collection alone. *)
Lemma _parse_neighbors_query_calls query w :
  store (_parse_neighbors_query self query w).2 = store w ∧
  filter is_search (calls (_parse_neighbors_query self query w).2)
  = filter is_search (calls w).
Proof.
  unfold _parse_neighbors_query.
  assert (∀ (query_ids : list id) (single_query : bool),
    let r := ((response ← _get_embeddings self query_ids;
               let query := np_array (vector <$> response) in
               if single_query then lift (first_row query) else mret query)
              : M ndarray) w in
    store r.2 = store w ∧ filter is_search (calls r.2) = filter is_search (calls w))
    as Hby_ids.
  { intros query_ids single_query. simpl. unfold mbind, M_bind.
    pose proof (_get_embeddings_calls query_ids w) as H.
    destruct (_get_embeddings self query_ids w) as [[e|response] w']; [done|].
    destruct single_query; [|done].
    unfold lift. by destruct (first_row _). }
  destruct query as [i|[|i ids]|a];
    [apply (Hby_ids [i] true) | done | apply (Hby_ids (i :: ids) false) | done].
Qed.

(** ** Config *)

Lemma _SUPPORTED_METRICS_lookup_None (s : string) :
  _SUPPORTED_METRICS !! s = None ↔ s ≠ "dotproduct" ∧ s ≠ "euclidean".
Proof.
  unfold _SUPPORTED_METRICS. rewrite !lookup_insert_None, lookup_empty.
  intuition.
Qed.

(** C9: with [metric=None] the guard of [__init__] does not fire (it only
    rejects a metric that is not [None] and is no key of
    [_SUPPORTED_METRICS]); the constructor then fails with [KeyError] when it
    looks [None] up in [_SUPPORTED_METRICS] for the index parameters.  The
    unsupported-metric [ValueError] is raised exactly for a string outside
    the two supported names. *)
Theorem config_init_metric_None
    (ef mo pf : option string) (sp : option bool) (cn uri us pw cl : string) :
  unsupported_metric None = false ∧
  MilvusSimilarityConfig_init ef mo pf sp None cn uri us pw cl = inl (KeyError None) ∧
  ∀ metric m,
    MilvusSimilarityConfig_init ef mo pf sp metric cn uri us pw cl = inl (ValueError m)
    ↔ ∃ s, metric = Some s ∧ s ≠ "dotproduct" ∧ s ≠ "euclidean" ∧
           m = UnsupportedMetric s ["dotproduct"; "euclidean"].
Proof.
  split; [done|]. split; [done|].
  intros metric m. unfold MilvusSimilarityConfig_init.
  destruct metric as [s|]; simpl.
  - case_bool_decide as Hs.
    + apply _SUPPORTED_METRICS_lookup_None in Hs as [??].
      split; [intros [= <-]; by exists s|].
      by intros (s' & [= <-] & _ & _ & ->).
    + split.
      * destruct (_SUPPORTED_METRICS !! s); done.
      * intros (s' & [= <-] & ? & ? & _).
        destruct Hs. by apply _SUPPORTED_METRICS_lookup_None.
  - split; [done|]. by intros (s & ? & _).
Qed.

(** ** kneighbors *)

(** C6: [_kneighbors] fails with a [ValueError] when [query] is [None], or
    [reverse] is true, or [k] is [None], or [k] exceeds 16384, or
    [aggregation] is neither [None] nor ["mean"]; the world is left as it
    was, so no remote call (and in particular no search) has been issued. *)
Theorem kneighbors_invalid_argument
    (query : option query_arg) (k : option Z) (reverse : bool)
    (aggregation : option string) (return_dists : bool) (w : world) :
  query = None ∨ reverse = true ∨ k = None ∨
    (∃ k', k = Some k' ∧ (16384 < k')%Z) ∨ aggregation ∉ [None; Some "mean"] →
  ∃ m, _kneighbors milvus_search self query k reverse aggregation return_dists w
       = (inl (ValueError m), w).
Proof.
  intros H. unfold _kneighbors.
  destruct query as [q|]; [|by eexists].
  destruct reverse; [by eexists|].
  destruct k as [k|]; [|by eexists].
  destruct (Z.ltb_spec (max_k (config self)) k); [by eexists|].
  case_bool_decide; [by eexists|].
  exfalso. unfold max_k in *.
  destruct H as [?|[?|[?|[(k' & ? & ?)|?]]]]; simplify_eq; try lia; done.
Qed.

Lemma filter_matches_absent (i : id) (c : collection) :
  i ∉ pk <$> rows c → filter (matches (PkIn [i])) (rows c) = [].
Proof.
  intros Hi. induction (rows c) as [|r rs IH]; [done|].
  rewrite fmap_cons, not_elem_of_cons in Hi. destruct Hi as [Hne Hi].
  rewrite filter_cons_False; [by apply IH|].
  simpl. rewrite list_elem_of_singleton. congruence.
Qed.

(** C10: a query by a single ID that is no primary key of the collection
    does not end in the missing-ID [ValueError]: the lookup returns no row,
    [np.array([])] has one dimension, and [query[0, :]] raises [IndexError].
    The only remote call issued is the lookup; no search follows. *)
Theorem kneighbors_unknown_id
    (i : id) (k : Z) (aggregation : option string) (return_dists : bool)
    (w : world) (c : collection) :
  store w = Some c →
  i ∉ pk <$> rows c →
  (k ≤ 16384)%Z →
  aggregation ∈ [None; Some "mean"] →
  _kneighbors milvus_search self (Some (QueryId i)) (Some k) false aggregation
    return_dists w
  = (inl IndexError,
     {| store := store w;
        calls := calls w ++ [Query (PkIn [i]) ["pk"; "sample_id"; "vector"]];
        logged := logged w ++ [ErrorGetEmbedding (collection_name (config self))] |}).
Proof.
  intros Hc Hi Hk Hagg. unfold _kneighbors.
  destruct (Z.ltb_spec (max_k (config self)) k) as [Hlt|_];
    [unfold max_k in Hlt; lia|].
  case_bool_decide; [done|].
  unfold _parse_neighbors_query, mbind, M_bind.
  rewrite (_get_embeddings_run _ _ _ Hc), filter_matches_absent by done.
  reflexivity.
Qed.








(** ** add_to_index *)

Lemma size_existing_in_pos (c : collection) (ids : list id) (i : id) :
  i ∈ ids → i ∈ pk <$> rows c → 0 < size (existing_in c ids).
Proof.
  intros Hi Hpk.
  assert (i ∈ existing_in c ids) as Hin by by apply elem_of_existing_in.
  destruct (size (existing_in c ids)) eqn:Hsize; [|lia].
  apply size_empty_inv in Hsize. apply Hsize in Hin.
  by apply not_elem_of_empty in Hin.
Qed.

(** C7: with [allow_existing=False], when one of the effective IDs is a
    primary key of the collection, [add_to_index] raises the [ValueError]
    "Found n IDs (eg i) that already exist in the index", where [n] counts
    the effective IDs that exist and [i] is one of them.  Up to then the
    only remote calls are the existence check of the collection and the
    query for the existing IDs: nothing is deleted or inserted and the
    collection is as before. *)
Theorem add_to_index_disallowed_existing
    (embeddings : ndarray) (sample_ids : list id) (label_ids : option (list id))
    (overwrite warn_existing : bool) (batch_size : nat)
    (w : world) (c : collection) :
  let ids := match label_ids with Some l => l | None => sample_ids end in
  store w = Some c →
  (∃ i, i ∈ ids ∧ i ∈ pk <$> rows c) →
  ∃ eg,
    eg ∈ ids ∧ eg ∈ pk <$> rows c ∧
    add_to_index milvus_insert self embeddings sample_ids label_ids overwrite
      false warn_existing batch_size w
    = (inl (ValueError (AlreadyExist (size (existing_in c ids)) eg)),
       {| store := store w;
          calls := calls w ++ [HasCollection; Query (PkIn ids) []];
          logged := logged w |}).
Proof.
  intros ids Hc (i & Hi & Hpk).
  pose proof (size_existing_in_pos c ids i Hi Hpk) as Hsize.
  destruct (elements (existing_in c ids)) as [|eg egs] eqn:Helems.
  { apply elements_empty_inv in Helems. apply size_empty_iff in Helems. lia. }
  assert (eg ∈ existing_in c ids) as Heg.
  { apply elem_of_elements. rewrite Helems. by left. }
  apply elem_of_existing_in in Heg as [Heg1 Heg2].
  exists eg. split; [done|]. split; [done|].
  destruct w as [s cs lg]. simpl in Hc. subst s.
  unfold add_to_index, has_collection.
  unfold mbind at 1. unfold M_bind at 1. simpl.
  rewrite orb_true_r. simpl.
  fold ids.
  unfold mbind, M_bind, mret, M_ret. cbv beta iota.
  erewrite get_existing_ids_run by done.
  rewrite (proj2 (Nat.ltb_lt _ _) Hsize).
  unfold when, next_iter, raise. rewrite Helems. cbv beta iota.
  simpl calls. by rewrite <-app_assoc.
Qed.

Ltac adds_step :=
  first
    [ apply adds_ret | apply adds_raise | apply adds_lift | apply adds_log
    | apply adds_get_store | apply adds_put_store | apply adds_when
    | apply adds_record_call
    | apply adds_bind; [|intros ?]
    | match goal with |- adds _ (match ?x with _ => _ end) => destruct x end ].

Lemma adds_bind_ret {A B} P (a : A) (f : A → M B) :
  adds P (f a) → adds P (mret a ≫= f).
Proof. intros H w. exact (H w). Qed.

Lemma adds_collection_insert (P : call → Prop) data :
  P (Insert data) → adds P (collection_insert milvus_insert self data).
Proof. intros HP. unfold collection_insert, get_collection. repeat adds_step. done. Qed.

Lemma adds_get_existing_ids (P : call → Prop) ids :
  P (Query (PkIn ids) []) → adds P (get_existing_ids self ids).
Proof.
  intros HP. unfold get_existing_ids, _get_existing_ids, collection_query,
    get_collection.
  repeat adds_step. done.
Qed.

Lemma adds__delete_ids (P : call → Prop) ids :
  P (Delete (PkIn ids)) → adds P (_delete_ids self ids).
Proof.
  intros HP. unfold _delete_ids, collection_delete, get_collection.
  repeat adds_step. done.
Qed.

(** The remote calls of [add_to_index].  The query for the existing IDs and
    the delete can only be issued when one of the three flags asks for the
    existing IDs, and the primary-key column of every insert is a batch of
    the effective IDs as they were passed in. *)
Lemma add_to_index_calls (P : call → Prop)
    (embeddings : ndarray) (sample_ids : list id) (label_ids : option (list id))
    (overwrite allow_existing warn_existing : bool) (batch_size : nat) :
  let ids := match label_ids with Some l => l | None => sample_ids end in
  P HasCollection →
  (∀ d, P (CreateCollection d)) →
  (warn_existing || negb allow_existing || negb overwrite = true →
   P (Query (PkIn ids) []) ∧ ∀ e, P (Delete e)) →
  (∀ _ids _embeddings _sample_ids,
     _ids ∈ iter_batches ids batch_size →
     P (Insert (_ids, _embeddings, _sample_ids))) →
  adds P (add_to_index milvus_insert self embeddings sample_ids label_ids
            overwrite allow_existing warn_existing batch_size).
Proof.
  intros ids Hhas Hcreate Hflags Hinsert. unfold add_to_index. fold ids.
  assert (∀ (e : ndarray) (s : list id),
    adds P (for_ (zip3 (iter_batches (tolist_each e) batch_size)
                       (iter_batches ids batch_size)
                       (iter_batches s batch_size))
              (λ '(_embeddings, _ids, _sample_ids),
                 collection_insert milvus_insert self
                   (_ids, _embeddings, _sample_ids)))) as Hloop.
  { intros e s. apply adds_for. intros [[es i] ss] Hin.
    apply elem_of_zip3 in Hin as (_ & Hi & _).
    apply adds_collection_insert. by apply Hinsert. }
  apply adds_bind.
  { unfold has_collection. repeat adds_step. done. }
  intros has. apply adds_bind.
  { unfold _create_collection. repeat adds_step. apply Hcreate. }
  intros _.
  destruct (warn_existing || negb allow_existing || negb overwrite) eqn:Hf.
  - destruct (Hflags eq_refl) as [Hquery Hdelete].
    apply adds_bind.
    { apply adds_bind; [by apply adds_get_existing_ids|].
      intros existing_ids. unfold next_iter. repeat adds_step. }
    intros existing_ids. apply adds_bind; [|intros [[e s] l]; apply Hloop].
    repeat adds_step. all: first [apply Hdelete | apply adds__delete_ids, Hdelete].
  - apply adds_bind_ret.
    rewrite !(bool_decide_eq_false_2 (∅ ≠ ∅)) by (by intros H; apply H).
    simpl. apply adds_bind_ret, Hloop.
Qed.

(** With [overwrite=True] and the other flags at their defaults,
    [add_to_index] never asks which IDs exist and never deletes: it only
    checks for the collection, creates it if need be, and inserts. *)
Lemma add_to_index_overwrite_default_no_delete
    (embeddings : ndarray) (sample_ids : list id) (label_ids : option (list id))
    (batch_size : nat) :
  adds (λ c, match c with Delete _ | Query _ _ | Search _ _ _ => False | _ => True end)
    (add_to_index milvus_insert self embeddings sample_ids label_ids
       true true false batch_size).
Proof. by apply add_to_index_calls. Qed.

(** Whatever the flags, the primary-key column of an insert is a batch of
    the effective IDs as passed in: the IDs found to exist are not taken out
    of it. *)
Lemma add_to_index_primary_keys_unfiltered
    (embeddings : ndarray) (sample_ids : list id) (label_ids : option (list id))
    (overwrite allow_existing warn_existing : bool) (batch_size : nat) :
  let ids := match label_ids with Some l => l | None => sample_ids end in
  adds (λ c, match c with
             | Insert (_ids, _, _) => _ids ∈ iter_batches ids batch_size
             | _ => True
             end)
    (add_to_index milvus_insert self embeddings sample_ids label_ids
       overwrite allow_existing warn_existing batch_size).
Proof. by apply add_to_index_calls. Qed.

(** ** remove_from_index *)

(** The set of "missing" IDs that [remove_from_index] computes, the existing
    IDs minus the requested ones, is empty. *)
Lemma existing_minus_requested (c : collection) (ids : list id) :
  existing_in c ids ∖ list_to_set ids = ∅.
Proof.
  apply set_eq. intros i. rewrite elem_of_difference, elem_of_existing_in,
    elem_of_list_to_set.
  split; [by intros [[? _] ?]|]. intros H. by apply not_elem_of_empty in H.
Qed.

(** On an existing collection [remove_from_index] never fails and never
    warns, whatever [allow_missing] and [warn_missing] are and whether or
    not the requested IDs exist: it goes on to delete. *)
Lemma remove_from_index_run
    (sample_ids label_ids : option (list id)) (ids : list id)
    (allow_missing warn_missing : bool) (w : world) (c : collection) :
  match label_ids with Some l => Some l | None => sample_ids end = Some ids →
  store w = Some c →
  remove_from_index self sample_ids label_ids allow_missing warn_missing w
  = (inr (),
     {| store := Some {| dim := dim c;
                         rows := filter (λ r, ¬ matches (PkIn ids) r) (rows c) |};
        calls := calls w
                 ++ (if negb allow_missing || warn_missing
                     then [Query (PkIn ids) []] else [])
                 ++ [Delete (PkIn ids)];
        logged := logged w |}).
Proof.
  intros Hids Hc. unfold remove_from_index. rewrite Hids.
  destruct w as [s cs lg]. simpl in Hc. subst s.
  destruct (negb allow_missing || warn_missing) eqn:Hflags.
  - unfold when at 1. unfold mbind at 1 2. unfold M_bind at 1 2.
    erewrite get_existing_ids_run by done.
    rewrite existing_minus_requested, size_empty.
    unfold _delete_ids, collection_delete, get_collection. unfold_M. simpl.
    by rewrite <-app_assoc.
  - reflexivity.
Qed.

(** ** get_embeddings *)

(** With sample IDs given, [get_embeddings] does not reach
    [_get_patch_embeddings_from_label_ids]. *)
Lemma get_embeddings_body_sample_ids
    (g1 g2 : option (list id) → nat → M found_result)
    (s : list id) (label_ids : option (list id)) (am wm : bool) (w : world) :
  get_embeddings_body milvus_search g1 self (Some s) label_ids am wm w
  = get_embeddings_body milvus_search g2 self (Some s) label_ids am wm w.
Proof. unfold get_embeddings_body. by destruct (patches_field (config self)). Qed.

Lemma _get_patch_embeddings_from_label_ids_body_ext
    (g1 g2 : option (list id) → M embeddings_result)
    (label_ids : option (list id)) (batch_size : nat) (w : world) :
  (∀ b w', g1 (Some b) w' = g2 (Some b) w') →
  _get_patch_embeddings_from_label_ids_body g1 label_ids batch_size w
  = _get_patch_embeddings_from_label_ids_body g2 label_ids batch_size w.
Proof.
  intros Hg. unfold _get_patch_embeddings_from_label_ids_body.
  destruct label_ids as [l|]; [|done].
  unfold mbind at 1 3. unfold M_bind at 1 3.
  erewrite for_acc_ext; [done|].
  intros [[fe fs] fl] b w' _. unfold mbind, M_bind. by rewrite Hg.
Qed.

Lemma get_embeddings_body_ext
    (g1 g2 : option (list id) → nat → M found_result)
    (sample_ids label_ids : option (list id)) (am wm : bool) (w : world) :
  (∀ l n w', g1 l n w' = g2 l n w') →
  get_embeddings_body milvus_search g1 self sample_ids label_ids am wm w
  = get_embeddings_body milvus_search g2 self sample_ids label_ids am wm w.
Proof.
  intros Hg. unfold get_embeddings_body.
  apply mbind_ext_r. intros [] w1. apply mbind_ext_l. intros w2.
  destruct sample_ids as [s|], (patches_field (config self)) as [pf|];
    try done; apply Hg.
Qed.

(** Calls nest two deep at most: every depth from 2 on gives the same
    result, so the recursion limit is never what stops [get_embeddings]. *)
Lemma get_embeddings_rec_depth
    (d : nat) (sample_ids label_ids : option (list id)) (am wm : bool) (w : world) :
  get_embeddings_rec milvus_search (S (S d)) self sample_ids label_ids am wm w
  = get_embeddings_rec milvus_search 2 self sample_ids label_ids am wm w.
Proof.
  change (get_embeddings_rec milvus_search (S (S d)) self sample_ids label_ids am wm)
    with (get_embeddings_body milvus_search
            (_get_patch_embeddings_from_label_ids_body
               (λ ids, get_embeddings_rec milvus_search (S d) self ids None true false))
            self sample_ids label_ids am wm).
  change (get_embeddings_rec milvus_search 2 self sample_ids label_ids am wm)
    with (get_embeddings_body milvus_search
            (_get_patch_embeddings_from_label_ids_body
               (λ ids, get_embeddings_rec milvus_search 1 self ids None true false))
            self sample_ids label_ids am wm).
  apply get_embeddings_body_ext. intros l n w'.
  apply _get_patch_embeddings_from_label_ids_body_ext. intros b w''.
  apply get_embeddings_body_sample_ids.
Qed.

Lemma get_embeddings_depth
    (sample_ids label_ids : option (list id)) (am wm : bool) (w : world) :
  get_embeddings milvus_search self sample_ids label_ids am wm w
  = get_embeddings_rec milvus_search 2 self sample_ids label_ids am wm w.
Proof. apply (get_embeddings_rec_depth 998). Qed.

Lemma get_embeddings_rec_S (d : nat)
    (sample_ids label_ids : option (list id)) (am wm : bool) :
  get_embeddings_rec milvus_search (S d) self sample_ids label_ids am wm
  = get_embeddings_body milvus_search
      (_get_patch_embeddings_from_label_ids_body
         (λ ids, get_embeddings_rec milvus_search d self ids None true false))
      self sample_ids label_ids am wm.
Proof. reflexivity. Qed.

(** When both kinds of IDs are given to an index over patches,
    [get_embeddings] logs that it ignores the sample IDs and then does what
    it does for the sample IDs alone: it is the label IDs that have no
    effect on the retrieval. *)
Lemma get_embeddings_ignores_label_ids
    (s l : list id) (am wm : bool) (w : world) (pf : string) :
  patches_field (config self) = Some pf →
  get_embeddings milvus_search self (Some s) (Some l) am wm w
  = get_embeddings milvus_search self (Some s) None am wm
      {| store := store w; calls := calls w;
         logged := logged w ++ [WarnIgnoringSampleIds] |}.
Proof.
  intros Hpf. rewrite !get_embeddings_depth, !get_embeddings_rec_S.
  unfold get_embeddings_body. rewrite Hpf.
  rewrite (bool_decide_eq_false_2 (Some pf = None)) by done.
  rewrite (bool_decide_eq_true_2 (Some s ≠ None)) by done.
  reflexivity.
Qed.

Lemma mbind_raises {A B} (m : M A) (f : A → M B) w :
  (∃ e w', m w = (inl e, w')) → ∃ e w', (m ≫= f) w = (inl e, w').
Proof. intros (e & w' & H). unfold mbind, M_bind. rewrite H. eauto. Qed.

(** On an index over patches, [get_embeddings] with label IDs alone never
    returns once there is a label ID to look up: the first batch already
    ends in an exception. *)
Lemma get_embeddings_label_ids_raises
    (i : id) (l : list id) (am wm : bool) (w : world) (pf : string) :
  patches_field (config self) = Some pf →
  ∃ e w',
    get_embeddings milvus_search self None (Some (i :: l)) am wm w = (inl e, w').
Proof.
  intros Hpf. rewrite get_embeddings_depth, get_embeddings_rec_S.
  unfold get_embeddings_body. rewrite Hpf.
  rewrite (bool_decide_eq_false_2 (Some pf = None)) by done.
  rewrite (bool_decide_eq_false_2 (None ≠ None)) by (by intros H; apply H).
  unfold when. rewrite (mbind_run _ _ w () w) by reflexivity.
  apply mbind_raises.
  unfold _get_patch_embeddings_from_label_ids_body.
  apply mbind_raises. rewrite iter_batches_cons.
  apply for_acc_raises. intros w1.
  unfold mbind, M_bind.
  destruct (get_embeddings_rec _ _ _ _ _ _ _ w1) as [[e|[[r ?] ?]] w2]; eauto.
Qed.

End Properties.

(** * The methods on concrete inputs *)

(** C1: the collection holds ["x"] with [V1 = [1, 0]], and [add_to_index] is
    called for ["x"] with [V2 = [0, 1]], [overwrite=True] and the other
    arguments at their defaults.  Whatever the service does with an insert,
    the only remote calls are the existence check of the collection and one
    insert: no delete precedes it.  With a service that appends what it is
    given, the collection then holds two entries for ["x"], [V1] and [V2]. *)
Theorem add_to_index_overwrite_default_at_x :
  (∀ milvus_insert,
     calls (add_to_index milvus_insert sample_index (Arr2 2 [[0; 1]%float]) ["x"] None
              true true false 100 world_x).2
     = [HasCollection; Insert (["x"], [FloatList [0; 1]%float], ["x"])]) ∧
  add_to_index append_insert sample_index (Arr2 2 [[0; 1]%float]) ["x"] None
    true true false 100 world_x
  = (inr (),
     {| store := Some {| dim := 2;
                         rows := [ {| pk := "x"; vector := [1; 0]%float; sample_id := "x" |};
                                   {| pk := "x"; vector := [0; 1]%float; sample_id := "x" |} ] |};
        calls := [HasCollection; Insert (["x"], [FloatList [0; 1]%float], ["x"])];
        logged := [] |}).
Proof.
  split; [|by vm_compute].
  intros milvus_insert. vm_compute.
  by destruct (milvus_insert _ _).
Qed.

(** C2: the collection holds ["x"] only, and [remove_from_index] is called
    for ["z"] with [allow_missing=False].  The call does not fail: it asks
    for the existing IDs, finds nothing missing, and issues the delete. *)
Theorem remove_from_index_missing_at_z :
  remove_from_index sample_index (Some ["z"]) None false false world_x
  = (inr (),
     {| store := Some collection_x;
        calls := [Query (PkIn ["z"]) []; Delete (PkIn ["z"])];
        logged := [] |}).
Proof. by vm_compute. Qed.

(** C3: the collection holds ["x"], and [add_to_index] is called for ["x"]
    and ["y"] with the rows [[0, 1]] and [[3, 4]] and [overwrite=False].
    The one insert that is issued still has the existing ["x"] in its
    primary-key column, next to the embeddings flattened to three numbers
    and the one remaining sample ID. *)
Theorem add_to_index_skip_at_x_y :
  ∀ milvus_insert,
    calls (add_to_index milvus_insert sample_index
             (Arr2 2 [[0; 1]%float; [3; 4]%float]) ["x"; "y"] None
             false true false 100 world_x).2
    = [HasCollection; Query (PkIn ["x"; "y"]) [];
       Insert (["x"; "y"], [Float 1; Float 3; Float 4], ["y"])].
Proof.
  intros milvus_insert. vm_compute.
  by destruct (milvus_insert _ _).
Qed.

(** C4: the collection holds the patch ["l"] of the sample ["s"], and
    [get_embeddings] is called on an index over patches with the sample IDs
    [["s"]] and the label IDs [["l"]].  The warning about ignored sample IDs
    is logged, but the retrieval is the one for sample IDs: a search scoped
    to the primary keys [["s"]].  The stored entry of ["l"] is not
    returned. *)
Theorem get_embeddings_both_ids_at_s_l :
  get_embeddings scan_search patch_index (Some ["s"]) (Some ["l"]) true false
    world_patch
  = (inr ([], [], Some []),
     {| store := Some collection_patch;
        calls := [Search [0; 0]%float (PkIn ["s"]) 100;
                  Query (PkIn []) ["pk"; "sample_id"; "vector"]];
        logged := [WarnIgnoringSampleIds; ErrorGetEmbedding "ClientCollection"] |}).
Proof. by vm_compute. Qed.

(** C5: the collection holds the patch ["l"], and [get_embeddings] is called
    on an index over patches with the label IDs [["l"]] alone.  The lookup
    goes through [get_embeddings] again, as a search scoped to the batch,
    and the tuple that comes back is then read as a list of rows: the call
    ends in [IndexError] and returns nothing. *)
Theorem get_embeddings_label_ids_at_l :
  get_embeddings scan_search patch_index None (Some ["l"]) true false world_patch
  = (inl IndexError,
     {| store := Some collection_patch;
        calls := [Search [0; 0]%float (PkIn ["l"]) 100;
                  Query (PkIn ["l"]) ["pk"; "sample_id"; "vector"]];
        logged := [ErrorGetEmbedding "ClientCollection"] |}).
Proof. by vm_compute. Qed.

(** [kneighbors_invalid_argument] at [k = 16385]. *)
Lemma kneighbors_invalid_argument_witness :
  (∃ k', Some 16385%Z = Some k' ∧ (16384 < k')%Z) ∧
  ∃ m, _kneighbors scan_search sample_index (Some (QueryArray (Arr1 [1; 0]%float)))
         (Some 16385%Z) false None false world_x
       = (inl (ValueError m), world_x).
Proof.
  assert (∃ k', Some 16385%Z = Some k' ∧ (16384 < k')%Z) as Hk.
  { exists 16385%Z. split; [reflexivity | lia]. }
  split; [exact Hk|].
  apply kneighbors_invalid_argument. right. right. right. left. exact Hk.
Defined.

(** [kneighbors_unknown_id] for the ID ["zz"] on the collection that holds
    ["x"] only. *)
Lemma kneighbors_unknown_id_witness :
  (store world_x = Some collection_x ∧ ("zz" ∉ pk <$> rows collection_x) ∧
   (3 ≤ 16384)%Z ∧ None ∈ [None; Some "mean"]) ∧
  _kneighbors scan_search sample_index (Some (QueryId "zz")) (Some 3%Z) false None
    false world_x
  = (inl IndexError,
     {| store := store world_x;
        calls := calls world_x ++ [Query (PkIn ["zz"]) ["pk"; "sample_id"; "vector"]];
        logged := logged world_x
                  ++ [ErrorGetEmbedding (collection_name (config sample_index))] |}).
Proof.
  assert ("zz" ∉ pk <$> rows collection_x) as Habsent by compute_done.
  assert ((None : option string) ∈ [None; Some "mean"]) as Hagg by left.
  split; [repeat split; [exact Habsent | lia | exact Hagg]|].
  apply (kneighbors_unknown_id scan_search sample_index "zz" 3 None false
           world_x collection_x); [reflexivity | exact Habsent | lia | exact Hagg].
Defined.

(** The mean of the two unit vectors is searched for; for an array of shape
    [(0, 2)] the query vector is nan, nan. *)
Example kneighbors_mean_of_two_rows :
  calls (_kneighbors scan_search sample_index
           (Some (QueryArray (Arr2 2 [[1; 0]; [0; 1]]%float))) (Some 3%Z) false
           (Some "mean") false world_x).2
  = [Search [Finite (1 # 2); Finite (1 # 2)] (PkIn ["x"; "y"]) 3].
Proof. by vm_compute. Qed.

Example kneighbors_mean_of_no_rows :
  calls (_kneighbors scan_search sample_index (Some (QueryArray (Arr2 2 [])))
           (Some 3%Z) false (Some "mean") false world_x).2
  = [Search [NaN; NaN] (PkIn ["x"; "y"]) 3].
Proof. by vm_compute. Qed.


(** [add_to_index_disallowed_existing] for the ID ["x"] on the collection
    that holds it. *)
Lemma add_to_index_disallowed_existing_witness :
  (store world_x = Some collection_x ∧
   ∃ i, i ∈ ["x"] ∧ i ∈ pk <$> rows collection_x) ∧
  ∃ eg,
    eg ∈ ["x"] ∧ eg ∈ pk <$> rows collection_x ∧
    add_to_index append_insert sample_index (Arr2 2 [[0; 1]%float]) ["x"] None true
      false false 100 world_x
    = (inl (ValueError (AlreadyExist (size (existing_in collection_x ["x"])) eg)),
       {| store := store world_x;
          calls := calls world_x ++ [HasCollection; Query (PkIn ["x"]) []];
          logged := logged world_x |}).
Proof.
  assert (∃ i : id, i ∈ ["x"] ∧ i ∈ pk <$> rows collection_x) as Hexists.
  { exists "x". split; by left. }
  split; [split; [reflexivity | exact Hexists]|].
  apply (add_to_index_disallowed_existing append_insert sample_index
           (Arr2 2 [[0; 1]%float]) ["x"] None true false 100 world_x collection_x);
    [reflexivity | exact Hexists].
Defined.

(** * Further properties of the methods *)

(** ** Computations that only read *)

Lemma reads_only_ret {A} (a : A) : reads_only (mret a).
Proof. by split. Qed.

Lemma reads_only_raise {A} e : reads_only (raise e : M A).
Proof. by split. Qed.

Lemma reads_only_lift {A} (x : exn + A) : reads_only (lift x).
Proof. destruct x; [apply reads_only_raise | apply reads_only_ret]. Qed.

Lemma reads_only_log r : reads_only (log r).
Proof. by split. Qed.

Lemma reads_only_record_call c : reads_only (record_call c).
Proof. by split. Qed.

Lemma reads_only_get_store : reads_only get_store.
Proof. split; [done|]. intros w1 w2 H. simpl. by rewrite H. Qed.

Lemma reads_only_bind {A B} (m : M A) (f : A → M B) :
  reads_only m → (∀ a, reads_only (f a)) → reads_only (m ≫= f).
Proof.
  intros [Hm1 Hm2] Hf. split.
  - intros w. unfold mbind, M_bind. specialize (Hm1 w).
    destruct (m w) as [[e|a] w']; [done|].
    simpl in Hm1. by rewrite (proj1 (Hf a) w').
  - intros w1 w2 Hw. unfold mbind, M_bind.
    pose proof (Hm2 w1 w2 Hw) as Hres.
    pose proof (Hm1 w1) as Hs1. pose proof (Hm1 w2) as Hs2.
    destruct (m w1) as [[e1|a1] w1'], (m w2) as [[e2|a2] w2'];
      simpl in *; simplify_eq; [done|].
    apply (Hf a2). congruence.
Qed.

Lemma reads_only_when b (m : M unit) : reads_only m → reads_only (when b m).
Proof. intros Hm. destruct b; [done | apply reads_only_ret]. Qed.

Lemma reads_only_for_acc {A B} (l : list A) (acc : B) (body : B → A → M B) :
  (∀ b a, reads_only (body b a)) → reads_only (for_acc l acc body).
Proof.
  intros Hbody. revert acc. induction l as [|x l IH]; intros acc; simpl.
  - apply reads_only_ret.
  - apply reads_only_bind; [apply Hbody | apply IH].
Qed.

Ltac reads_step :=
  first
    [ apply reads_only_ret | apply reads_only_raise | apply reads_only_lift
    | apply reads_only_log | apply reads_only_get_store | apply reads_only_when
    | apply reads_only_record_call
    | apply reads_only_for_acc; intros ??; cbv beta
    | apply reads_only_bind; [|intros ?]
    | match goal with
      | |- reads_only (match ?x with _ => _ end) => destruct x
      | |- reads_only ((match ?x with _ => _ end) _) => destruct x; cbv beta iota
      end ].

Section ReadOnly.

Set Default Proof Using "Type".

Variable milvus_search : collection → list float → expr → Z → exn + list hit.
Variable self : MilvusSimilarityIndex.

Lemma reads_only__get_embeddings ids : reads_only (_get_embeddings self ids).
Proof.
  unfold _get_embeddings, collection_query, get_collection. repeat reads_step.
Qed.

Lemma reads_only_collection_search q e limit :
  reads_only (collection_search milvus_search self q e limit).
Proof. unfold collection_search, get_collection. repeat reads_step. Qed.

Lemma reads_only__get_sample_embeddings sample_ids batch_size :
  reads_only (_get_sample_embeddings self sample_ids batch_size).
Proof.
  unfold _get_sample_embeddings. repeat reads_step.
  all: try apply reads_only__get_embeddings.
Qed.

Lemma reads_only__get_patch_embeddings_from_sample_ids sample_ids batch_size :
  reads_only (_get_patch_embeddings_from_sample_ids milvus_search self sample_ids
                batch_size).
Proof.
  unfold _get_patch_embeddings_from_sample_ids, get_dim, get_collection.
  repeat reads_step.
  all: first [apply reads_only_collection_search | apply reads_only__get_embeddings].
Qed.

Lemma reads_only__get_patch_embeddings_from_label_ids_body
    (g : option (list id) → M embeddings_result) label_ids batch_size :
  (∀ ids, reads_only (g ids)) →
  reads_only (_get_patch_embeddings_from_label_ids_body g label_ids batch_size).
Proof.
  intros Hg. unfold _get_patch_embeddings_from_label_ids_body, ndarray_getitem_str.
  repeat reads_step. all: apply Hg.
Qed.

Lemma reads_only_get_embeddings_body
    (g : option (list id) → nat → M found_result) sample_ids label_ids am wm :
  (∀ l n, reads_only (g l n)) →
  reads_only (get_embeddings_body milvus_search g self sample_ids label_ids am wm).
Proof.
  intros Hg. unfold get_embeddings_body. repeat reads_step.
  all: first [ apply Hg
             | apply reads_only__get_patch_embeddings_from_sample_ids
             | apply reads_only__get_sample_embeddings ].
Qed.

Lemma reads_only_get_embeddings_rec depth sample_ids label_ids am wm :
  reads_only (get_embeddings_rec milvus_search depth self sample_ids label_ids am wm).
Proof.
  revert sample_ids label_ids am wm.
  induction depth as [|depth IH]; intros sample_ids label_ids am wm.
  - apply reads_only_raise.
  - rewrite get_embeddings_rec_S. apply reads_only_get_embeddings_body.
    intros l n. apply reads_only__get_patch_embeddings_from_label_ids_body.
    intros ids. apply IH.
Qed.

Lemma reads_only__parse_neighbors_query query :
  reads_only (_parse_neighbors_query self query).
Proof.
  unfold _parse_neighbors_query. destruct query as [i|[|i ids]|a];
    repeat reads_step; apply reads_only__get_embeddings.
Qed.

Lemma reads_only__kneighbors query k reverse aggregation return_dists :
  reads_only (_kneighbors milvus_search self query k reverse aggregation return_dists).
Proof.
  unfold _kneighbors. repeat reads_step.
  all: first [ apply reads_only__parse_neighbors_query
             | apply reads_only_collection_search ].
Qed.

(** X10: [get_embeddings] never changes the collection, and asking again gives
    the same answer (result or exception) as the first time, in every mode
    and whatever the arguments. *)
Theorem get_embeddings_idempotent
    (sample_ids label_ids : option (list id)) (allow_missing warn_missing : bool)
    (w : world) :
  let first := get_embeddings milvus_search self sample_ids label_ids
                 allow_missing warn_missing w in
  store first.2 = store w ∧
  (get_embeddings milvus_search self sample_ids label_ids allow_missing
     warn_missing first.2).1 = first.1.
Proof.
  intros first.
  destruct (reads_only_get_embeddings_rec recursion_limit sample_ids label_ids
              allow_missing warn_missing) as [Hstore Hresult].
  split; [apply Hstore|]. apply Hresult, Hstore.
Qed.

End ReadOnly.

(** ** Which remote calls the reading methods issue *)

Lemma adds_for_acc {A B} P (l : list A) (acc : B) (body : B → A → M B) :
  (∀ b a, adds P (body b a)) → adds P (for_acc l acc body).
Proof.
  intros Hbody. revert acc. induction l as [|x l IH]; intros acc; simpl.
  - apply adds_ret.
  - apply adds_bind; [apply Hbody | apply IH].
Qed.

Ltac adds_step' :=
  first
    [ apply adds_ret | apply adds_raise | apply adds_lift | apply adds_log
    | apply adds_get_store | apply adds_put_store | apply adds_when
    | apply adds_record_call
    | apply adds_bind; [|intros ?]
    | match goal with |- adds _ (match ?x with _ => _ end) => destruct x end
    | apply adds_for_acc; intros ??; cbv beta
    | match goal with
      | |- adds _ ((match ?x with _ => _ end) _) => destruct x; cbv beta iota
      end ].

Section ReadCalls.

Set Default Proof Using "Type".

Variable milvus_search : collection → list float → expr → Z → exn + list hit.
Variable self : MilvusSimilarityIndex.

Lemma adds__get_embeddings (P : call → Prop) ids :
  P (Query (PkIn ids) ["pk"; "sample_id"; "vector"]) →
  adds P (_get_embeddings self ids).
Proof.
  intros HP. unfold _get_embeddings, collection_query, get_collection.
  repeat adds_step'. done.
Qed.

Lemma adds_collection_search (P : call → Prop) q e limit :
  P (Search q e limit) → adds P (collection_search milvus_search self q e limit).
Proof.
  intros HP. unfold collection_search, get_collection. repeat adds_step'. done.
Qed.


(** X11: the only remote calls of [get_embeddings] are lookups by primary key
    and, for an index over patches, searches that ask for 100 hits.  Nothing
    is created, inserted or deleted. *)
Theorem get_embeddings_calls
    (sample_ids label_ids : option (list id)) (allow_missing warn_missing : bool) :
  adds (λ c, match c with
             | Query _ _ => True
             | Search _ _ limit => limit = 100%Z
             | _ => False
             end)
    (get_embeddings milvus_search self sample_ids label_ids allow_missing
       warn_missing).
Proof.
  unfold get_embeddings. generalize recursion_limit. intros depth.
  revert sample_ids label_ids allow_missing warn_missing.
  induction depth as [|depth IH]; intros sample_ids label_ids am wm.
  - apply adds_raise.
  - rewrite get_embeddings_rec_S. unfold get_embeddings_body.
    repeat adds_step'.
    all: try done.
    all: first
      [ unfold _get_patch_embeddings_from_sample_ids, get_dim, get_collection;
        repeat adds_step';
        first [done | by apply adds_collection_search | by apply adds__get_embeddings]
      | unfold _get_patch_embeddings_from_label_ids_body, ndarray_getitem_str;
        repeat adds_step'; first [done | apply IH]
      | unfold _get_sample_embeddings; repeat adds_step';
        first [done | by apply adds__get_embeddings] ].
Qed.

End ReadCalls.

(** ** Config *)

(** X1: a supported metric is accepted, and the derived blocks are the HNSW
    index parameters with the Milvus name of the metric ([IP] for
    ["dotproduct"], [L2] for ["euclidean"]) and the search parameter
    [ef = 10]; the other arguments are stored as given. *)
Theorem config_init_supported
    (ef mo pf : option string) (sp : option bool) (cn uri us pw cl : string)
    (m metric_type : string) :
  (m, metric_type) ∈ [("dotproduct", "IP"); ("euclidean", "L2")] →
  MilvusSimilarityConfig_init ef mo pf sp (Some m) cn uri us pw cl
  = inr {| embeddings_field := ef; model := mo; patches_field := pf;
           supports_prompts := sp; metric := Some m; collection_name := cn;
           _uri := uri; user := us; password := pw; consistency_level := cl;
           index_params :=
             {| ip_metric_type := metric_type; ip_index_type := "HNSW";
                ip_params := <["M" := 8%Z]> (<["efConstruction" := 64%Z]> ∅) |};
           search_params :=
             <["HNSW" := {| sp_metric_type := metric_type;
                            sp_params := <["ef" := 10%Z]> ∅ |}]> ∅ |}.
Proof.
  intros Hm.
  apply elem_of_cons in Hm as [[= -> ->]|Hm]; [reflexivity|].
  apply list_elem_of_singleton in Hm as [= -> ->]. reflexivity.
Qed.

Lemma config_init_supported_witness :
  ("euclidean", "L2") ∈ [("dotproduct", "IP"); ("euclidean", "L2")] ∧
  MilvusSimilarityConfig_init None None None None (Some "euclidean")
    "ClientCollection" "http://localhost:19530" "" "" "Session"
  = inr (example_config None).
Proof.
  assert (("euclidean", "L2") ∈ [("dotproduct", "IP"); ("euclidean", "L2")]) as H
    by (right; left).
  split; [exact H|].
  exact (config_init_supported None None None None "ClientCollection"
           "http://localhost:19530" "" "" "Session" "euclidean" "L2" H).
Defined.

Section Retrieval.

Set Default Proof Using "Type".

Variable milvus_search : collection → list float → expr → Z → exn + list hit.
Variable self : MilvusSimilarityIndex.

(** ** get_embeddings *)

(** X7: label IDs on an index without a patches field are refused with
    "This index does not support label IDs" before anything is looked up,
    whatever the sample IDs are. *)
Theorem get_embeddings_label_ids_unsupported
    (sample_ids : option (list id)) (label_ids : list id)
    (allow_missing warn_missing : bool) (w : world) :
  patches_field (config self) = None →
  get_embeddings milvus_search self sample_ids (Some label_ids) allow_missing
    warn_missing w
  = (inl (ValueError NoLabelIds), w).
Proof.
  intros Hpf. rewrite get_embeddings_depth, get_embeddings_rec_S.
  unfold get_embeddings_body. rewrite Hpf. reflexivity.
Qed.

(** X8: without any IDs [get_embeddings] fails with "Milvus does not support
    retrieving all vectors in an index", on either kind of index and before
    anything is looked up. *)
Theorem get_embeddings_without_ids (allow_missing warn_missing : bool) (w : world) :
  get_embeddings milvus_search self None None allow_missing warn_missing w
  = (inl (ValueError NoRetrieveAll), w).
Proof.
  rewrite get_embeddings_depth, get_embeddings_rec_S.
  unfold get_embeddings_body. by destruct (patches_field (config self)).
Qed.

Lemma elem_of_concat {A} (x : A) (ls : list (list A)) :
  x ∈ concat ls ↔ ∃ l, x ∈ l ∧ l ∈ ls.
Proof.
  induction ls as [|l ls IH]; simpl.
  - split; [by intros ?%elem_of_nil | by intros (? & _ & ?%elem_of_nil)].
  - rewrite elem_of_app, IH. split.
    + intros [Hx|(l' & Hx & Hl')]; [exists l; split; [done|by left]|].
      exists l'. split; [done|by right].
    + intros (l' & Hx & [->|Hl']%elem_of_cons); [by left|].
      right. by exists l'.
Qed.

Lemma elem_of_found_by_batches (c : collection) (ids : list id) (n : nat) (r : row) :
  r ∈ found_by_batches c (iter_batches ids (S n)) ↔ r ∈ rows c ∧ pk r ∈ ids.
Proof.
  unfold found_by_batches.
  rewrite <-(iter_batches_concat ids n) at 2.
  rewrite !elem_of_concat. split.
  - intros (l & Hr & Hl). apply list_elem_of_fmap in Hl as (b & -> & Hb).
    apply list_elem_of_filter in Hr as [Hm Hr]. split; [done|]. by exists b.
  - intros (Hr & b & Hpk & Hb).
    exists (filter (matches (PkIn b)) (rows c)). split.
    + by apply list_elem_of_filter.
    + apply list_elem_of_fmap. by exists b.
Qed.

(** The loop of [_get_sample_embeddings]: one lookup per batch, each adding
    what it finds. *)
Lemma _get_sample_embeddings_loop (batches : list (list id))
    (found_embeddings : list (list float)) (found_sample_ids : list id)
    (c : collection) (cs : list call) (lg : list log_record) :
  for_acc batches (found_embeddings, found_sample_ids)
    (λ '(found_embeddings, found_sample_ids) batch_ids,
       response ← _get_embeddings self batch_ids;
       mret (found_embeddings ++ (vector <$> response),
             found_sample_ids ++ (sample_id <$> response)))
    {| store := Some c; calls := cs; logged := lg |}
  = (inr (found_embeddings ++ (vector <$> found_by_batches c batches),
          found_sample_ids ++ (sample_id <$> found_by_batches c batches)),
     {| store := Some c;
        calls := cs ++ ((λ b, Query (PkIn b) ["pk"; "sample_id"; "vector"]) <$> batches);
        logged := lg ++ replicate (length batches)
                          (ErrorGetEmbedding (collection_name (config self))) |}).
Proof.
  revert found_embeddings found_sample_ids cs lg.
  induction batches as [|b batches IH]; intros fe fs cs lg.
  - simpl. unfold found_by_batches. simpl. by rewrite !app_nil_r.
  - cbn [for_acc]. unfold mbind at 1. unfold M_bind at 1.
    unfold mbind at 1. unfold M_bind at 1.
    erewrite _get_embeddings_run by reflexivity.
    unfold mret at 1. unfold M_ret at 1. cbv beta iota. simpl store.
    simpl calls. simpl logged. rewrite IH.
    unfold found_by_batches. rewrite !fmap_cons. simpl concat.
    rewrite !fmap_app, <-!app_assoc. reflexivity.
Qed.

(** X9: on an index over samples, [get_embeddings] for sample IDs returns the
    vector and the sample ID of exactly the stored entities whose primary key
    was asked for.  The IDs that are no stored sample ID are missing: with
    [allow_missing=False] they make the call fail with "Found n IDs (eg i)
    that do not exist in the index", otherwise they are left out. *)
Theorem get_embeddings_sample_mode
    (ids : list id) (allow_missing warn_missing : bool) (w : world)
    (c : collection) :
  patches_field (config self) = None →
  store w = Some c →
  let found := found_by_batches c (iter_batches ids 1000) in
  let missing_ids :=
    elements ((list_to_set ids : gset id) ∖ list_to_set (sample_id <$> found)) in
  (∀ r, r ∈ found ↔ r ∈ rows c ∧ pk r ∈ ids) ∧
  (∀ i, i ∈ missing_ids ↔ i ∈ ids ∧ i ∉ sample_id <$> found) ∧
  (get_embeddings milvus_search self (Some ids) None allow_missing warn_missing w).1
  = match missing_ids with
    | [] => inr (vector <$> found, sample_id <$> found, None)
    | eg :: _ =>
        if allow_missing then inr (vector <$> found, sample_id <$> found, None)
        else inl (ValueError (DoNotExist (length missing_ids) eg))
    end.
Proof.
  intros Hpf Hc found missing_ids.
  split; [intros r; apply elem_of_found_by_batches|].
  split.
  { intros i. unfold missing_ids.
    rewrite elem_of_elements, elem_of_difference, !elem_of_list_to_set. done. }
  rewrite get_embeddings_depth, get_embeddings_rec_S.
  unfold get_embeddings_body. rewrite Hpf.
  destruct w as [s cs lg]. simpl in Hc. subst s.
  unfold _get_sample_embeddings.
  rewrite (mbind_run _ _ _ () {| store := Some c; calls := cs; logged := lg |})
    by reflexivity.
  unfold mbind at 1. unfold M_bind at 1.
  unfold mbind at 1. unfold M_bind at 1.
  rewrite _get_sample_embeddings_loop.
  unfold mret at 1. unfold M_ret at 1. cbv beta iota. rewrite !app_nil_l.
  fold found. fold missing_ids.
  destruct missing_ids as [|eg rest]; [reflexivity|].
  destruct allow_missing, warn_missing; reflexivity.
Qed.

End Retrieval.

Section Removal.

Set Default Proof Using "Type".

Variable self : MilvusSimilarityIndex.

(** ** remove_from_index *)

(** X6: after [remove_from_index] the collection holds exactly the entities
    whose primary key was not among the IDs given (label IDs when given,
    sample IDs otherwise), so none of these IDs exists any more; a second
    removal of the same IDs changes nothing. *)
Theorem remove_from_index_removes
    (sample_ids label_ids : option (list id)) (ids : list id)
    (allow_missing warn_missing : bool) (w : world) (c : collection) :
  match label_ids with Some l => Some l | None => sample_ids end = Some ids →
  store w = Some c →
  let w' := (remove_from_index self sample_ids label_ids allow_missing
               warn_missing w).2 in
  ∃ c', store w' = Some c' ∧
        dim c' = dim c ∧
        (∀ r, r ∈ rows c' ↔ r ∈ rows c ∧ pk r ∉ ids) ∧
        existing_in c' ids = ∅ ∧
        store (remove_from_index self sample_ids label_ids allow_missing
                 warn_missing w').2 = Some c'.
Proof.
  intros Hids Hc w'.
  set (c' := {| dim := dim c;
                rows := filter (λ r, ¬ matches (PkIn ids) r) (rows c) |}).
  assert (store w' = Some c') as Hw'.
  { unfold w'. by rewrite (remove_from_index_run self _ _ ids _ _ w c). }
  assert (∀ r, r ∈ rows c' ↔ r ∈ rows c ∧ pk r ∉ ids) as Hrows.
  { intros r. unfold c'. simpl. rewrite list_elem_of_filter. simpl. tauto. }
  exists c'. split; [done|]. split; [done|]. split; [done|]. split.
  - apply set_eq. intros i. rewrite elem_of_existing_in. split.
    + intros [Hi Hpk]. apply list_elem_of_fmap in Hpk as (r & -> & Hr).
      apply Hrows in Hr as [_ Hr]. done.
    + intros H. by apply not_elem_of_empty in H.
  - rewrite (remove_from_index_run self _ _ ids _ _ w' c') by done.
    simpl. f_equal. unfold c'. simpl. f_equal.
    apply list_filter_filter_l. intros r. done.
Qed.

End Removal.

Section Neighbors.

Set Default Proof Using "Type".

Variable milvus_search : collection → list float → expr → Z → exn + list hit.
Variable self : MilvusSimilarityIndex.

(** ** kneighbors *)

Lemma collection_search_run (q : list float) (e : expr) (k : Z) (c : collection)
    (cs : list call) (lg : list log_record) (found : list hit) :
  milvus_search c q e k = inr found →
  collection_search milvus_search self q e k
    {| store := Some c; calls := cs; logged := lg |}
  = (inr found, {| store := Some c; calls := cs ++ [Search q e k]; logged := lg |}).
Proof.
  intros H. unfold collection_search, get_collection. unfold_M. simpl.
  by rewrite H.
Qed.

(** The search loop of [_kneighbors] when every search is answered. *)
Lemma _kneighbors_loop (batch : list (list float)) (hits : list float → list hit)
    (k : Z) (return_dists : bool) (ids : list (list id)) (dists : list (list float))
    (c : collection) (cs : list call) (lg : list log_record) :
  (∀ q, q ∈ batch → milvus_search c q (PkIn (index_ids self)) k = inr (hits q)) →
  for_acc batch (ids, dists)
    (λ '(ids, dists) q,
       response ← collection_search milvus_search self q (PkIn (index_ids self)) k;
       mret (ids ++ [hit_id <$> response],
             if return_dists then dists ++ [score <$> response] else dists))
    {| store := Some c; calls := cs; logged := lg |}
  = (inr (ids ++ ((λ q, hit_id <$> hits q) <$> batch),
          if return_dists then dists ++ ((λ q, score <$> hits q) <$> batch)
          else dists),
     {| store := Some c;
        calls := cs ++ ((λ q, Search q (PkIn (index_ids self)) k) <$> batch);
        logged := lg |}).
Proof.
  revert ids dists cs.
  induction batch as [|q batch IH]; intros ids dists cs Hhits.
  - simpl. rewrite !app_nil_r. by destruct return_dists.
  - cbn [for_acc]. unfold mbind at 1. unfold M_bind at 1.
    unfold mbind at 1. unfold M_bind at 1.
    erewrite collection_search_run by (apply Hhits; by left).
    unfold mret at 1. unfold M_ret at 1. cbv beta iota.
    rewrite IH by (intros q' Hq'; apply Hhits; by right).
    rewrite !fmap_cons, <-!app_assoc. simpl.
    destruct return_dists; [by rewrite <-app_assoc | done].
Qed.

(** X16: a query by a batch of vectors without aggregation issues one search
    per vector, in the order of the batch, and returns one list of IDs (and
    one list of scores when [return_dists] is set) per vector. *)
Theorem kneighbors_batch
    (ncols : nat) (batch : list (list float)) (hits : list float → list hit)
    (k : Z) (return_dists : bool) (w : world) (c : collection) :
  (k ≤ 16384)%Z →
  store w = Some c →
  (∀ q, q ∈ batch → milvus_search c q (PkIn (index_ids self)) k = inr (hits q)) →
  _kneighbors milvus_search self (Some (QueryArray (Arr2 ncols batch))) (Some k)
    false None return_dists w
  = (inr (PerQuery ((λ q, hit_id <$> hits q) <$> batch),
          if return_dists then Some (PerQuery ((λ q, score <$> hits q) <$> batch))
          else None),
     {| store := store w;
        calls := calls w ++ ((λ q, Search q (PkIn (index_ids self)) k) <$> batch);
        logged := logged w |}).
Proof.
  intros Hk Hc Hhits. unfold _kneighbors.
  destruct (Z.ltb_spec (max_k (config self)) k) as [Hlt|_];
    [unfold max_k in Hlt; lia|].
  case_bool_decide as Hagg; [destruct Hagg; by left|].
  destruct w as [s cs lg]. simpl in Hc. subst s.
  rewrite (mbind_run _ _ _ (Arr2 ncols batch)
             {| store := Some c; calls := cs; logged := lg |}) by reflexivity.
  rewrite (bool_decide_eq_false_2 (None = Some "mean")) by done.
  unfold query_vectors. unfold mbind at 1. unfold M_bind at 1.
  rewrite (_kneighbors_loop batch hits) by done.
  simpl. by destruct return_dists.
Qed.

(** What [_kneighbors] returns depends on the query only through the array
    it resolves to. *)
Lemma kneighbors_resolved (q : query_arg) (a : ndarray) (k : option Z)
    (reverse : bool) (aggregation : option string) (return_dists : bool)
    (w w1 : world) :
  _parse_neighbors_query self q w = (inr a, w1) →
  (_kneighbors milvus_search self (Some q) k reverse aggregation return_dists w).1
  = (_kneighbors milvus_search self (Some (QueryArray a)) k reverse aggregation
       return_dists w1).1.
Proof.
  intros Hparse. unfold _kneighbors.
  destruct reverse; [done|]. destruct k as [k|]; [|done].
  destruct (max_k (config self) <? k)%Z; [done|].
  case_bool_decide; [done|].
  rewrite (mbind_run _ _ w a w1 Hparse).
  by rewrite (mbind_run _ _ w1 a w1) by reflexivity.
Qed.

Lemma kneighbors_result_by_parse (q1 q2 : query_arg) (k : option Z)
    (reverse : bool) (aggregation : option string) (return_dists : bool)
    (w : world) :
  (_parse_neighbors_query self q1 w).1 = (_parse_neighbors_query self q2 w).1 →
  (_kneighbors milvus_search self (Some q1) k reverse aggregation return_dists w).1
  = (_kneighbors milvus_search self (Some q2) k reverse aggregation return_dists w).1.
Proof.
  intros H.
  pose proof (proj1 (_parse_neighbors_query_calls self q1 w)) as Hs1.
  pose proof (proj1 (_parse_neighbors_query_calls self q2 w)) as Hs2.
  destruct (_parse_neighbors_query self q1 w) as [[e1|a1] w1] eqn:H1,
           (_parse_neighbors_query self q2 w) as [[e2|a2] w2] eqn:H2;
    simpl in H, Hs1, Hs2; simplify_eq.
  - unfold _kneighbors.
    destruct reverse; [done|]. destruct k as [k|]; [|done].
    destruct (max_k (config self) <? k)%Z; [done|].
    case_bool_decide; [done|].
    unfold mbind, M_bind. by rewrite H1, H2.
  - rewrite (kneighbors_resolved _ _ _ _ _ _ _ _ H1),
            (kneighbors_resolved _ _ _ _ _ _ _ _ H2).
    apply reads_only__kneighbors. congruence.
Qed.

(** X17: a query by the ID of a stored entity gets the same answer as a query
    by the vector stored under that ID. *)
Theorem kneighbors_by_id
    (i : id) (r : row) (others : list row) (k : option Z) (reverse : bool)
    (aggregation : option string) (return_dists : bool) (w : world)
    (c : collection) :
  store w = Some c →
  filter (matches (PkIn [i])) (rows c) = r :: others →
  (_kneighbors milvus_search self (Some (QueryId i)) k reverse aggregation
     return_dists w).1
  = (_kneighbors milvus_search self (Some (QueryArray (Arr1 (vector r)))) k reverse
       aggregation return_dists w).1.
Proof.
  intros Hc Hrow. apply kneighbors_result_by_parse.
  unfold _parse_neighbors_query, mbind, M_bind.
  rewrite (_get_embeddings_run self _ _ _ Hc), Hrow. reflexivity.
Qed.

(** X18: a query by a list of IDs depends on the list only as a set: order and
    repetitions of the IDs make no difference to the answer, whose lists
    follow the stored entities, not the IDs given. *)
Theorem kneighbors_ids_as_set
    (ids1 ids2 : list id) (k : option Z) (reverse : bool)
    (aggregation : option string) (return_dists : bool) (w : world) :
  (∀ i, i ∈ ids1 ↔ i ∈ ids2) →
  (_kneighbors milvus_search self (Some (QueryIds ids1)) k reverse aggregation
     return_dists w).1
  = (_kneighbors milvus_search self (Some (QueryIds ids2)) k reverse aggregation
       return_dists w).1.
Proof.
  intros Hids. apply kneighbors_result_by_parse.
  destruct ids1 as [|i1 ids1], ids2 as [|i2 ids2].
  - done.
  - exfalso. eapply elem_of_nil, Hids. by left.
  - exfalso. eapply elem_of_nil, Hids. by left.
  - unfold _parse_neighbors_query, _get_embeddings, collection_query,
      get_collection. unfold_M. simpl.
    destruct (store w) as [c|]; [|done]. simpl.
    by rewrite (list_filter_iff (matches (PkIn (i1 :: ids1)))
                  (matches (PkIn (i2 :: ids2)))) by (intros r; apply Hids).
Qed.

End Neighbors.

(** ** add_to_index with a service that stores what it is given *)

Lemma zip3_nil_2 {A B C} (a : list A) (c : list C) : zip3 a (@nil B) c = [].
Proof. by destruct a. Qed.

Lemma zip3_nil_3 {A B C} (a : list A) (b : list B) : zip3 a b (@nil C) = [].
Proof. by destruct a, b. Qed.

Lemma zip3_take_drop {A B C} (n : nat) (a : list A) (b : list B) (c : list C) :
  zip3 (take n a) (take n b) (take n c) ++ zip3 (drop n a) (drop n b) (drop n c)
  = zip3 a b c.
Proof.
  revert a b c. induction n as [|n IH]; intros a b c; [done|].
  destruct a as [|x a], b as [|y b], c as [|z c]; simpl; rewrite ?IH; try done.
  all: by rewrite ?zip3_nil_2, ?zip3_nil_3.
Qed.

Lemma rows_of_columns_take_drop (n : nat) (ids : list id) (es : list (list float))
    (sids : list id) :
  rows_of_columns (take n ids) (take n es) (take n sids)
  ++ rows_of_columns (drop n ids) (drop n es) (drop n sids)
  = rows_of_columns ids es sids.
Proof. unfold rows_of_columns. by rewrite <-fmap_app, zip3_take_drop. Qed.

Lemma tolist_each_Arr2 (ncols : nat) (es : list (list float)) :
  tolist_each (Arr2 ncols es) = FloatList <$> es.
Proof. simpl. induction es as [|e es IH]; simpl; [done | by rewrite IH]. Qed.

Section Ingestion.

Set Default Proof Using "Type".

Variable milvus_insert : collection → insert_data → exn + collection.
Variable self : MilvusSimilarityIndex.

Hypothesis milvus_insert_stores : stores_rows milvus_insert.

(** The insert loop of [add_to_index]: batch after batch, every row ends up
    in the collection, once and in order. *)
Lemma insert_loop_run (n fuel : nat) (ids : list id) (es : list (list float))
    (sids : list id) (c : collection) (cs : list call) (lg : list log_record) :
  length es = length ids →
  length sids = length ids →
  length ids ≤ fuel →
  Forall (λ e, length e = dim c) es →
  for_ (zip3 (iter_batches_aux fuel (FloatList <$> es) (S n))
             (iter_batches_aux fuel ids (S n))
             (iter_batches_aux fuel sids (S n)))
    (λ '(_embeddings, _ids, _sample_ids),
       collection_insert milvus_insert self (_ids, _embeddings, _sample_ids))
    {| store := Some c; calls := cs; logged := lg |}
  = (inr (),
     {| store := Some {| dim := dim c; rows := rows c ++ rows_of_columns ids es sids |};
        calls := cs ++ ((λ '(_embeddings, _ids, _sample_ids),
                           Insert (_ids, _embeddings, _sample_ids))
                        <$> zip3 (iter_batches_aux fuel (FloatList <$> es) (S n))
                                 (iter_batches_aux fuel ids (S n))
                                 (iter_batches_aux fuel sids (S n)));
        logged := lg |}).
Proof using milvus_insert_stores.
  revert ids es sids c cs.
  induction fuel as [|fuel IH]; intros ids es sids c cs Hes Hsids Hfuel Hdim.
  - destruct ids; [|simpl in Hfuel; lia].
    destruct c. simpl. unfold rows_of_columns. simpl. by rewrite !app_nil_r.
  - destruct ids as [|i ids], es as [|e es], sids as [|s sids]; simplify_eq/=.
    { destruct c. unfold rows_of_columns. simpl. by rewrite !app_nil_r. }
    rewrite <-!fmap_take, <-!fmap_drop.
    unfold mbind at 1. unfold M_bind at 1.
    unfold collection_insert at 1, get_collection. unfold_M. cbn -[for_ zip3 iter_batches_aux].
    change (FloatList e :: (FloatList <$> take n es))
      with (FloatList <$> (e :: take n es)).
    rewrite (milvus_insert_stores c (i :: take n ids) (e :: take n es)
               (s :: take n sids)).
    2: { simpl. rewrite !length_take. lia. }
    2: { simpl. rewrite !length_take. lia. }
    2: { apply Forall_cons in Hdim as [He Hes']. constructor; [done|].
         by apply Forall_take. }
    cbn -[for_ zip3 iter_batches_aux rows_of_columns].
    rewrite IH.
    + cbn -[rows_of_columns]. rewrite <-!app_assoc.
      change (rows_of_columns (i :: take n ids) (e :: take n es) (s :: take n sids))
        with (rows_of_columns (take (S n) (i :: ids)) (take (S n) (e :: es))
                (take (S n) (s :: sids))).
      change (rows_of_columns (drop n ids) (drop n es) (drop n sids))
        with (rows_of_columns (drop (S n) (i :: ids)) (drop (S n) (e :: es))
                (drop (S n) (s :: sids))).
      by rewrite rows_of_columns_take_drop.
    + rewrite !length_drop. lia.
    + rewrite !length_drop. lia.
    + rewrite length_drop. lia.
    + apply Forall_cons in Hdim as [_ Hes']. by apply Forall_drop.
Qed.

(** [add_to_index] when no existing ID has to be dealt with: either the
    flags do not ask which IDs exist, or none of them does.  A missing
    collection is created first, with the dimension of the embeddings. *)
Lemma add_to_index_run (ncols : nat) (es : list (list float)) (sample_ids : list id)
    (label_ids : option (list id)) (overwrite allow_existing warn_existing : bool)
    (n : nat) (w : world) :
  let ids := match label_ids with Some l => l | None => sample_ids end in
  let c0 := match store w with
            | Some c => c
            | None => {| dim := ncols; rows := [] |}
            end in
  length es = length ids →
  length sample_ids = length ids →
  Forall (λ e, length e = dim c0) es →
  (warn_existing || negb allow_existing || negb overwrite = true →
   existing_in c0 ids = ∅) →
  add_to_index milvus_insert self (Arr2 ncols es) sample_ids label_ids overwrite
    allow_existing warn_existing (S n) w
  = (inr (),
     {| store := Some {| dim := dim c0;
                         rows := rows c0 ++ rows_of_columns ids es sample_ids |};
        calls := calls w
                 ++ HasCollection
                    :: match store w with
                       | Some _ => []
                       | None => [CreateCollection ncols]
                       end
                 ++ (if warn_existing || negb allow_existing || negb overwrite
                     then [Query (PkIn ids) []] else [])
                 ++ ((λ '(_embeddings, _ids, _sample_ids),
                        Insert (_ids, _embeddings, _sample_ids))
                     <$> zip3 (iter_batches (FloatList <$> es) (S n))
                              (iter_batches ids (S n))
                              (iter_batches sample_ids (S n)));
        logged := logged w |}).
Proof using milvus_insert_stores.
  intros ids c0 Hes Hsids Hdim Hex. unfold add_to_index. fold ids.
  destruct w as [s cs lg]. simpl in c0.
  set (w1 := {| store := Some c0;
                calls := cs ++ HasCollection
                         :: match s with
                            | Some _ => []
                            | None => [CreateCollection ncols]
                            end;
                logged := lg |}).
  rewrite (mbind_run _ _ _ (bool_decide (is_Some s))
             {| store := s; calls := cs ++ [HasCollection]; logged := lg |})
    by reflexivity.
  rewrite (mbind_run _ _ _ () w1).
  2: { unfold w1, c0. destruct s as [c|]; [reflexivity|].
       unfold _create_collection. unfold_M. simpl. by rewrite <-app_assoc. }
  set (flags := warn_existing || negb allow_existing || negb overwrite) in *.
  rewrite (mbind_run _ _ w1 (∅ : gset id)
             {| store := Some c0;
                calls := calls w1 ++ (if flags then [Query (PkIn ids) []] else []);
                logged := lg |}).
  2: { destruct flags.
       - unfold mbind at 1. unfold M_bind at 1.
         erewrite get_existing_ids_run by reflexivity.
         rewrite (Hex eq_refl), size_empty. reflexivity.
       - unfold w1. simpl. by rewrite app_nil_r. }
  rewrite (bool_decide_eq_false_2 (∅ ≠ ∅)) by (by intros H; apply H).
  simpl andb. cbv iota.
  rewrite mbind_run with (a := (Arr2 ncols es, sample_ids, label_ids))
    (w' := {| store := Some c0;
              calls := calls w1 ++ (if flags then [Query (PkIn ids) []] else []);
              logged := lg |}) by reflexivity.
  cbv beta iota. rewrite tolist_each_Arr2. unfold iter_batches.
  rewrite length_fmap, Hes, Hsids.
  rewrite insert_loop_run by done.
  unfold w1. simpl calls. by rewrite <-!app_assoc.
Qed.

(** X2: on an existing collection, when the flags do not ask which IDs exist
    (the defaults) or none of the IDs exists, [add_to_index] succeeds and
    appends one entity per row, in order, whatever the batch size: the
    primary key is the label ID when label IDs are given and the sample ID
    otherwise.  Nothing that was stored is touched. *)
Theorem add_to_index_stores_rows
    (ncols : nat) (es : list (list float)) (sample_ids : list id)
    (label_ids : option (list id)) (overwrite allow_existing warn_existing : bool)
    (n : nat) (w : world) (c : collection) :
  let ids := match label_ids with Some l => l | None => sample_ids end in
  store w = Some c →
  length es = length ids →
  length sample_ids = length ids →
  Forall (λ e, length e = dim c) es →
  (warn_existing || negb allow_existing || negb overwrite = true →
   existing_in c ids = ∅) →
  let out := add_to_index milvus_insert self (Arr2 ncols es) sample_ids label_ids
               overwrite allow_existing warn_existing (S n) w in
  out.1 = inr () ∧
  store out.2
  = Some {| dim := dim c; rows := rows c ++ rows_of_columns ids es sample_ids |} ∧
  logged out.2 = logged w.
Proof using milvus_insert_stores.
  intros ids Hc Hes Hsids Hdim Hex out. unfold out.
  rewrite add_to_index_run; rewrite ?Hc; done.
Qed.

(** X3: when the collection does not exist, [add_to_index] creates it with
    the number of columns of the embeddings as its dimension, and it then
    holds exactly the rows given, whatever the flags. *)
Theorem add_to_index_creates_collection
    (ncols : nat) (es : list (list float)) (sample_ids : list id)
    (label_ids : option (list id)) (overwrite allow_existing warn_existing : bool)
    (n : nat) (w : world) :
  let ids := match label_ids with Some l => l | None => sample_ids end in
  store w = None →
  length es = length ids →
  length sample_ids = length ids →
  Forall (λ e, length e = ncols) es →
  let out := add_to_index milvus_insert self (Arr2 ncols es) sample_ids label_ids
               overwrite allow_existing warn_existing (S n) w in
  out.1 = inr () ∧
  store out.2 = Some {| dim := ncols; rows := rows_of_columns ids es sample_ids |} ∧
  ∃ more, calls out.2 = calls w ++ HasCollection :: CreateCollection ncols :: more.
Proof using milvus_insert_stores.
  intros ids Hc Hes Hsids Hdim out. unfold out.
  rewrite add_to_index_run; rewrite ?Hc; try done.
  simpl. split; [done|]. split; [done|]. eauto.
Qed.

Lemma filter_ext_elem {A} (P1 P2 : A → Prop)
    `{!∀ x, Decision (P1 x), !∀ x, Decision (P2 x)} (l : list A) :
  (∀ x, x ∈ l → P1 x ↔ P2 x) → filter P1 l = filter P2 l.
Proof.
  induction l as [|x l IH]; intros Hiff; [done|].
  rewrite !filter_cons, IH by (intros y Hy; apply Hiff; by right).
  destruct (decide (P1 x)) as [H1|H1], (decide (P2 x)) as [H2|H2]; try done.
  - destruct H2. by apply (Hiff x); [left|].
  - destruct H1. by apply (Hiff x); [left|].
Qed.

Lemma filter_all {A} (P : A → Prop) `{!∀ x, Decision (P x)} (l : list A) :
  (∀ x, x ∈ l → P x) → filter P l = l.
Proof.
  induction l as [|x l IH]; intros HP; [done|].
  rewrite filter_cons_True by (apply HP; by left).
  f_equal. apply IH. intros y Hy. apply HP. by right.
Qed.

(** Deleting the existing IDs removes the entities whose primary key is
    among the IDs given. *)
Lemma filter_existing (c : collection) (ids : list id) :
  filter (λ r, ¬ matches (PkIn (elements (existing_in c ids))) r) (rows c)
  = filter (λ r, pk r ∉ ids) (rows c).
Proof.
  apply filter_ext_elem. intros r Hr. simpl.
  rewrite elem_of_elements, elem_of_existing_in.
  split; [|tauto]. intros H Hpk. apply H. split; [done|].
  apply list_elem_of_fmap. by exists r.
Qed.

(** X4: with [overwrite=True] and [warn_existing=True] (and existing IDs
    allowed), [add_to_index] first deletes the stored entities whose primary
    key is among the IDs given and then inserts the rows: afterwards these
    IDs are held by the new rows only, and the other entities are as
    before. *)
Theorem add_to_index_overwrite_warned
    (ncols : nat) (es : list (list float)) (sample_ids : list id)
    (label_ids : option (list id)) (n : nat) (w : world) (c : collection) :
  let ids := match label_ids with Some l => l | None => sample_ids end in
  store w = Some c →
  length es = length ids →
  length sample_ids = length ids →
  Forall (λ e, length e = dim c) es →
  let out := add_to_index milvus_insert self (Arr2 ncols es) sample_ids label_ids
               true true true (S n) w in
  out.1 = inr () ∧
  store out.2
  = Some {| dim := dim c;
            rows := filter (λ r, pk r ∉ ids) (rows c)
                    ++ rows_of_columns ids es sample_ids |}.
Proof using milvus_insert_stores.
  intros ids Hc Hes Hsids Hdim out.
  destruct (decide (existing_in c ids = ∅)) as [Hex|Hex].
  { destruct (add_to_index_stores_rows ncols es sample_ids label_ids true true true
                n w c Hc Hes Hsids Hdim (λ _, Hex)) as (Hres & Hstore & _).
    split; [done|]. fold ids in Hstore. unfold out. rewrite Hstore.
    rewrite (filter_all (λ r, pk r ∉ ids)); [done|].
    intros r Hr Hpk. apply (not_elem_of_empty (C:=gset id) (pk r)). rewrite <-Hex.
    apply elem_of_existing_in. split; [done|].
    apply list_elem_of_fmap. by exists r. }
  unfold out, add_to_index. fold ids.
  destruct w as [s cs lg]. simpl in Hc. subst s.
  rewrite (mbind_run _ _ _ true
             {| store := Some c; calls := cs ++ [HasCollection]; logged := lg |})
    by reflexivity.
  rewrite (mbind_run _ _ _ ()
             {| store := Some c; calls := cs ++ [HasCollection]; logged := lg |})
    by reflexivity.
  assert (0 < size (existing_in c ids)) as Hsize.
  { destruct (size (existing_in c ids)) eqn:Hn; [|lia].
    by apply size_empty_inv, leibniz_equiv in Hn. }
  cbn [orb negb].
  rewrite (mbind_run _ _ _ (existing_in c ids)
             {| store := Some c;
                calls := cs ++ [HasCollection; Query (PkIn ids) []];
                logged := lg ++ [WarnOverwriting (size (existing_in c ids))] |}).
  2: { unfold mbind at 1. unfold M_bind at 1.
       erewrite get_existing_ids_run by reflexivity.
       rewrite (proj2 (Nat.ltb_lt _ _) Hsize). simpl.
       by rewrite <-app_assoc. }
  rewrite (bool_decide_eq_true_2 (existing_in c ids ≠ ∅)) by done.
  cbn [andb negb].
  rewrite (mbind_run _ _ _ (Arr2 ncols es, sample_ids, label_ids)
             {| store := Some {| dim := dim c;
                                 rows := filter (λ r, pk r ∉ ids) (rows c) |};
                calls := cs ++ [HasCollection; Query (PkIn ids) [];
                                Delete (PkIn (elements (existing_in c ids)))];
                logged := lg ++ [WarnOverwriting (size (existing_in c ids))] |}).
  2: { pose proof (filter_existing c ids) as Hfilter. simpl in Hfilter.
       unfold _delete_ids, collection_delete, get_collection. unfold_M. simpl.
       by rewrite Hfilter, <-app_assoc. }
  cbv beta iota. rewrite tolist_each_Arr2. unfold iter_batches.
  rewrite length_fmap, Hes, Hsids.
  rewrite insert_loop_run by done. done.
Qed.

(** X5: with [batch_size=0] and the flags at their defaults, [add_to_index]
    on an existing collection returns without inserting anything: there is
    no batch to send. *)
Theorem add_to_index_batch_size_0
    (embeddings : ndarray) (sample_ids : list id) (label_ids : option (list id))
    (w : world) (c : collection) :
  store w = Some c →
  add_to_index milvus_insert self embeddings sample_ids label_ids true true false 0 w
  = (inr (),
     {| store := store w; calls := calls w ++ [HasCollection]; logged := logged w |}).
Proof.
  intros Hc. destruct w as [s cs lg]. simpl in Hc. subst s.
  unfold add_to_index.
  rewrite (mbind_run _ _ _ true
             {| store := Some c; calls := cs ++ [HasCollection]; logged := lg |})
    by reflexivity.
  rewrite (mbind_run _ _ _ ()
             {| store := Some c; calls := cs ++ [HasCollection]; logged := lg |})
    by reflexivity.
  cbn [orb negb].
  rewrite (mbind_run _ _ _ (∅ : gset id)
             {| store := Some c; calls := cs ++ [HasCollection]; logged := lg |})
    by reflexivity.
  rewrite (bool_decide_eq_false_2 (∅ ≠ ∅)) by (by intros H; apply H).
  cbn [andb].
  rewrite (mbind_run _ _ _ (embeddings, sample_ids, label_ids)
             {| store := Some c; calls := cs ++ [HasCollection]; logged := lg |})
    by reflexivity.
  cbv beta iota.
  assert (∀ {A} (l : list A), iter_batches l 0 = []) as Hnil.
  { intros A l. unfold iter_batches. by destruct (length l). }
  by rewrite !Hnil.
Qed.

End Ingestion.

(** ** Inserting, then retrieving *)

Lemma pk_rows_of_columns (ids : list id) (es : list (list float)) (sids : list id)
    (r : row) :
  r ∈ rows_of_columns ids es sids → pk r ∈ ids.
Proof.
  unfold rows_of_columns. intros Hr.
  apply list_elem_of_fmap in Hr as ([[i e] s] & -> & Hin).
  by apply elem_of_zip3 in Hin as (? & _ & _).
Qed.

Lemma filter_rows_of_columns (ids : list id) (es : list (list float)) (sids : list id)
    (j : nat) (i : id) (e : list float) (s : id) :
  NoDup ids →
  ids !! j = Some i → es !! j = Some e → sids !! j = Some s →
  filter (matches (PkIn [i])) (rows_of_columns ids es sids)
  = [ {| pk := i; vector := e; sample_id := s |} ].
Proof.
  revert es sids j.
  induction ids as [|i0 ids IH]; intros es sids j Hnodup Hi He Hs; [done|].
  destruct es as [|e0 es]; [by destruct j|].
  destruct sids as [|s0 sids]; [by destruct j|].
  apply NoDup_cons in Hnodup as [Hi0 Hnodup].
  change (rows_of_columns (i0 :: ids) (e0 :: es) (s0 :: sids))
    with ({| pk := i0; vector := e0; sample_id := s0 |}
          :: rows_of_columns ids es sids).
  destruct j as [|j]; simplify_eq/=.
  - rewrite filter_cons_True by (simpl; by left). f_equal.
    apply (filter_matches_absent i {| dim := 0; rows := rows_of_columns ids es sids |}).
    simpl. intros Hin. apply list_elem_of_fmap in Hin as (r & -> & Hr).
    by apply pk_rows_of_columns in Hr.
  - rewrite filter_cons_False; [by eapply IH|].
    simpl. intros ->%list_elem_of_singleton.
    apply Hi0. by eapply list_elem_of_lookup_2.
Qed.

Section RoundTrip.

Set Default Proof Using "Type".

Variable milvus_search : collection → list float → expr → Z → exn + list hit.
Variable milvus_insert : collection → insert_data → exn + collection.
Variable self : MilvusSimilarityIndex.

Hypothesis milvus_insert_stores : stores_rows milvus_insert.

(** X13: on an index over samples, a vector inserted by [add_to_index] under a
    sample ID that was not stored before is what [get_embeddings] returns for
    that ID, together with the ID itself. *)
Theorem add_then_get_embeddings
    (ncols : nat) (es : list (list float)) (sample_ids : list id) (n j : nat)
    (i : id) (e : list float) (allow_missing warn_missing : bool)
    (w : world) (c : collection) :
  patches_field (config self) = None →
  store w = Some c →
  length es = length sample_ids →
  Forall (λ e, length e = dim c) es →
  NoDup sample_ids →
  sample_ids !! j = Some i →
  es !! j = Some e →
  i ∉ pk <$> rows c →
  let w' := (add_to_index milvus_insert self (Arr2 ncols es) sample_ids None
               true true false (S n) w).2 in
  (get_embeddings milvus_search self (Some [i]) None allow_missing warn_missing w').1
  = inr ([e], [i], None).
Proof using milvus_insert_stores.
  intros Hpf Hc Hes Hdim Hnodup Hi He Hfresh w'.
  destruct (add_to_index_stores_rows milvus_insert self milvus_insert_stores
              ncols es sample_ids None true true false n w c Hc Hes eq_refl Hdim)
    as (_ & Hstore & _); [done|].
  fold w' in Hstore.
  destruct (get_embeddings_sample_mode milvus_search self [i] allow_missing
              warn_missing w' _ Hpf Hstore) as (_ & _ & ->).
  assert (found_by_batches
            {| dim := dim c; rows := rows c ++ rows_of_columns sample_ids es sample_ids |}
            (iter_batches [i] 1000)
          = [ {| pk := i; vector := e; sample_id := i |} ]) as ->.
  { unfold found_by_batches, iter_batches. simpl rows. simpl length.
    cbn [iter_batches_aux take drop fmap list_fmap concat].
    rewrite app_nil_r, filter_app, (filter_matches_absent i c Hfresh).
    by rewrite (filter_rows_of_columns _ _ _ j i e i). }
  simpl. rewrite difference_diag_L, elements_empty. reflexivity.
Qed.

End RoundTrip.

(** ** More on kneighbors and on the probe of get_embeddings *)

Lemma adds_for_acc_elem {A B} P (l : list A) (acc : B) (body : B → A → M B) :
  (∀ b a, a ∈ l → adds P (body b a)) → adds P (for_acc l acc body).
Proof.
  intros Hbody. revert acc. induction l as [|x l IH]; intros acc; simpl.
  - apply adds_ret.
  - apply adds_bind; [apply Hbody; by left|].
    intros acc'. apply IH. intros b a Ha. apply Hbody. by right.
Qed.

Lemma filter_matches_none (ids : list id) (c : collection) :
  (∀ i, i ∈ ids → i ∉ pk <$> rows c) → filter (matches (PkIn ids)) (rows c) = [].
Proof.
  intros Hids. induction (rows c) as [|r rs IH]; [done|].
  rewrite filter_cons_False.
  - apply IH. intros i Hi Hin. apply (Hids i Hi). rewrite fmap_cons. by right.
  - simpl. intros Hpk. apply (Hids _ Hpk). rewrite fmap_cons. by left.
Qed.

Section Probes.

Set Default Proof Using "Type".

Variable milvus_search : collection → list float → expr → Z → exn + list hit.
Variable self : MilvusSimilarityIndex.

(** X15: a query by a single vector issues one search with that vector and
    returns its hits as flat lists; [aggregation="mean"] changes nothing for
    a single vector. *)
Theorem kneighbors_vector
    (v : list float) (k : Z) (aggregation : option string) (return_dists : bool)
    (w : world) (c : collection) :
  (k ≤ 16384)%Z →
  aggregation ∈ [None; Some "mean"] →
  store w = Some c →
  _kneighbors milvus_search self (Some (QueryArray (Arr1 v))) (Some k) false
    aggregation return_dists w
  = (match milvus_search c v (PkIn (index_ids self)) k with
     | inl e => inl e
     | inr found =>
         inr (Flat (hit_id <$> found),
              if return_dists then Some (Flat (score <$> found)) else None)
     end,
     {| store := store w;
        calls := calls w ++ [Search v (PkIn (index_ids self)) k];
        logged := logged w |}).
Proof.
  intros Hk Hagg Hc. unfold _kneighbors.
  destruct (Z.ltb_spec (max_k (config self)) k) as [Hlt|_];
    [unfold max_k in Hlt; lia|].
  case_bool_decide; [done|].
  destruct w as [s cs lg]. simpl in Hc. subst s.
  rewrite (mbind_run _ _ _ (Arr1 v) {| store := Some c; calls := cs; logged := lg |})
    by reflexivity.
  simpl. unfold collection_search, get_collection. unfold_M. simpl.
  destruct (milvus_search c v (PkIn (index_ids self)) k) as [e|found]; [done|].
  by destruct return_dists.
Qed.

(** X19: a query by a list of IDs none of which is stored is not refused: it
    is answered like a query by the empty vector, with one search whose
    query vector has no component. *)
Theorem kneighbors_unknown_ids
    (ids : list id) (k : Z) (aggregation : option string) (return_dists : bool)
    (w : world) (c : collection) :
  (k ≤ 16384)%Z →
  aggregation ∈ [None; Some "mean"] →
  store w = Some c →
  (∀ i, i ∈ ids → i ∉ pk <$> rows c) →
  (_kneighbors milvus_search self (Some (QueryIds ids)) (Some k) false aggregation
     return_dists w).1
  = match milvus_search c [] (PkIn (index_ids self)) k with
    | inl e => inl e
    | inr found =>
        inr (Flat (hit_id <$> found),
             if return_dists then Some (Flat (score <$> found)) else None)
    end.
Proof.
  intros Hk Hagg Hc Hids.
  rewrite (kneighbors_result_by_parse milvus_search self (QueryIds ids)
             (QueryArray (Arr1 []))).
  - by rewrite (kneighbors_vector [] k aggregation return_dists w c).
  - destruct ids as [|i ids]; [done|].
    unfold _parse_neighbors_query, mbind, M_bind.
    by rewrite (_get_embeddings_run self _ _ _ Hc), filter_matches_none.
Qed.

(** X12: on an index over patches, [get_embeddings] for sample IDs looks the
    patches up by probing: every search it issues has a zero query vector,
    asks for 100 hits and is scoped to primary keys among one batch of the
    sample IDs given; the label IDs play no part. *)
Theorem get_embeddings_patch_probe
    (sample_ids : list id) (label_ids : option (list id))
    (allow_missing warn_missing : bool) (pf : string) :
  patches_field (config self) = Some pf →
  adds (λ c, match c with
             | Query _ _ => True
             | Search q e limit =>
                 Forall (λ x, x = 0%float) q ∧
                 (∃ batch_ids, batch_ids ∈ iter_batches sample_ids 100 ∧
                               e = PkIn batch_ids) ∧
                 limit = 100%Z
             | _ => False
             end)
    (get_embeddings milvus_search self (Some sample_ids) label_ids allow_missing
       warn_missing).
Proof.
  intros Hpf. unfold get_embeddings.
  change recursion_limit with (S 999). rewrite get_embeddings_rec_S.
  unfold get_embeddings_body. rewrite Hpf.
  apply adds_bind; [repeat adds_step'|]. intros _.
  apply adds_bind; [|intros [[[??]?]?]; repeat adds_step'].
  unfold _get_patch_embeddings_from_sample_ids, get_dim, get_collection.
  apply adds_bind; [repeat adds_step'|]. intros d.
  apply adds_bind; [|intros [[??]?]; repeat adds_step'].
  apply adds_for_acc_elem. intros [[fe fs] fl] batch_ids Hbatch. cbv beta iota.
  apply adds_bind.
  - apply adds_collection_search. split; [|split; [by exists batch_ids|done]].
    apply Forall_forall. by intros x [-> _]%elem_of_replicate.
  - intros response. apply adds_bind; [by apply adds__get_embeddings|].
    intros ?. apply adds_ret.
Qed.

End Probes.

(** * The further properties on concrete inputs *)

(** The appending service stores what it is given. *)
Lemma append_insert_stores : stores_rows append_insert.
Proof.
  intros c ids es sids Hes Hsids _. unfold append_insert.
  assert (as_rows ids (FloatList <$> es) sids = Some (rows_of_columns ids es sids))
    as ->; [|done].
  clear c. revert es sids Hes Hsids.
  induction ids as [|i ids IH]; intros [|e es] [|s sids] Hes Hsids;
    simplify_eq/=; [done|].
  by rewrite (IH es sids).
Qed.

Lemma get_embeddings_label_ids_unsupported_witness :
  patches_field (config sample_index) = None ∧
  get_embeddings scan_search sample_index (Some ["x"]) (Some ["l"]) true false world_x
  = (inl (ValueError NoLabelIds), world_x).
Proof.
  split; [reflexivity|].
  apply (get_embeddings_label_ids_unsupported scan_search sample_index (Some ["x"])
           ["l"] true false world_x).
  reflexivity.
Defined.

Lemma get_embeddings_sample_mode_witness :
  (patches_field (config sample_index) = None ∧ store world_x = Some collection_x) ∧
  let found := found_by_batches collection_x (iter_batches ["x"; "q"] 1000) in
  let missing_ids :=
    elements ((list_to_set ["x"; "q"] : gset id) ∖ list_to_set (sample_id <$> found)) in
  (∀ r, r ∈ found ↔ r ∈ rows collection_x ∧ pk r ∈ ["x"; "q"]) ∧
  (∀ i, i ∈ missing_ids ↔ i ∈ ["x"; "q"] ∧ i ∉ sample_id <$> found) ∧
  (get_embeddings scan_search sample_index (Some ["x"; "q"]) None false false
     world_x).1
  = match missing_ids with
    | [] => inr (vector <$> found, sample_id <$> found, None)
    | eg :: _ => inl (ValueError (DoNotExist (length missing_ids) eg))
    end.
Proof.
  split; [by split|].
  apply (get_embeddings_sample_mode scan_search sample_index ["x"; "q"] false false
           world_x collection_x); reflexivity.
Defined.

Lemma remove_from_index_removes_witness :
  (Some ["x"] = Some ["x"] ∧ store world_x = Some collection_x) ∧
  let w' := (remove_from_index sample_index (Some ["x"]) None true false world_x).2 in
  ∃ c', store w' = Some c' ∧
        dim c' = dim collection_x ∧
        (∀ r, r ∈ rows c' ↔ r ∈ rows collection_x ∧ pk r ∉ ["x"]) ∧
        existing_in c' ["x"] = ∅ ∧
        store (remove_from_index sample_index (Some ["x"]) None true false w').2
        = Some c'.
Proof.
  split; [by split|].
  apply (remove_from_index_removes sample_index (Some ["x"]) None ["x"] true false
           world_x collection_x); reflexivity.
Defined.

Lemma kneighbors_batch_witness :
  let hits := λ _ : list float, [ {| hit_id := "x"; score := 0%float |} ] in
  let e := PkIn (index_ids sample_index) in
  ((3 ≤ 16384)%Z ∧ store world_x = Some collection_x ∧
   ∀ q, q ∈ [[1; 0]%float; [0; 1]%float] → scan_search collection_x q e 3 = inr (hits q)) ∧
  _kneighbors scan_search sample_index
    (Some (QueryArray (Arr2 2 [[1; 0]%float; [0; 1]%float]))) (Some 3%Z) false None true
    world_x
  = (inr (PerQuery ((λ q, hit_id <$> hits q) <$> [[1; 0]%float; [0; 1]%float]),
          Some (PerQuery ((λ q, score <$> hits q) <$> [[1; 0]%float; [0; 1]%float]))),
     {| store := store world_x;
        calls := calls world_x ++ ((λ q, Search q e 3) <$> [[1; 0]%float; [0; 1]%float]);
        logged := logged world_x |}).
Proof.
  intros hits e.
  assert (∀ q, q ∈ [[1; 0]%float; [0; 1]%float] → scan_search collection_x q e 3 = inr (hits q))
    as Hhits by (intros q _; reflexivity).
  split; [split; [lia | split; [reflexivity | exact Hhits]]|].
  apply (kneighbors_batch scan_search sample_index 2 [[1; 0]%float; [0; 1]%float] hits 3 true
           world_x collection_x); [lia | reflexivity | exact Hhits].
Defined.

Lemma kneighbors_by_id_witness :
  let r := {| pk := "x"; vector := [1; 0]%float; sample_id := "x" |} in
  (store world_x = Some collection_x ∧
   filter (matches (PkIn ["x"])) (rows collection_x) = [r]) ∧
  (_kneighbors scan_search sample_index (Some (QueryId "x")) (Some 3%Z) false None
     true world_x).1
  = (_kneighbors scan_search sample_index (Some (QueryArray (Arr1 (vector r))))
       (Some 3%Z) false None true world_x).1.
Proof.
  intros r. split; [by split|].
  apply (kneighbors_by_id scan_search sample_index "x" r [] (Some 3%Z) false None
           true world_x collection_x); reflexivity.
Defined.

Lemma kneighbors_ids_as_set_witness :
  (∀ i : id, i ∈ ["x"; "y"] ↔ i ∈ ["y"; "x"; "x"]) ∧
  (_kneighbors scan_search sample_index (Some (QueryIds ["x"; "y"])) (Some 3%Z)
     false None false world_x).1
  = (_kneighbors scan_search sample_index (Some (QueryIds ["y"; "x"; "x"]))
       (Some 3%Z) false None false world_x).1.
Proof.
  assert (∀ i : id, i ∈ ["x"; "y"] ↔ i ∈ ["y"; "x"; "x"]) as Hids.
  { intros i. rewrite !elem_of_cons, !elem_of_nil. tauto. }
  split; [exact Hids|].
  apply (kneighbors_ids_as_set scan_search sample_index ["x"; "y"] ["y"; "x"; "x"]
           (Some 3%Z) false None false world_x Hids).
Defined.

Lemma add_to_index_stores_rows_witness :
  (stores_rows append_insert ∧ store world_x = Some collection_x ∧
   Forall (λ e : list float, length e = dim collection_x) [[0; 1]%float]) ∧
  let out := add_to_index append_insert sample_index (Arr2 2 [[0; 1]%float]) ["y"] None
               true true false 100 world_x in
  out.1 = inr () ∧
  store out.2
  = Some {| dim := dim collection_x;
            rows := rows collection_x
                    ++ rows_of_columns ["y"] [[0; 1]%float] ["y"] |} ∧
  logged out.2 = logged world_x.
Proof.
  assert (Forall (λ e : list float, length e = dim collection_x) [[0; 1]%float]) as Hdim
    by (by repeat constructor).
  split; [split; [exact append_insert_stores | by split]|].
  apply (add_to_index_stores_rows append_insert sample_index append_insert_stores 2
           [[0; 1]%float] ["y"] None true true false 99 world_x collection_x);
    [reflexivity | reflexivity | reflexivity | exact Hdim | discriminate].
Defined.

Lemma add_to_index_creates_collection_witness :
  (stores_rows append_insert ∧ store world_empty = None ∧
   Forall (λ e : list float, length e = 2) [[0; 1]%float]) ∧
  let out := add_to_index append_insert sample_index (Arr2 2 [[0; 1]%float]) ["y"] None
               false false true 100 world_empty in
  out.1 = inr () ∧
  store out.2
  = Some {| dim := 2; rows := rows_of_columns ["y"] [[0; 1]%float] ["y"] |} ∧
  ∃ more, calls out.2
          = calls world_empty ++ HasCollection :: CreateCollection 2 :: more.
Proof.
  assert (Forall (λ e : list float, length e = 2) [[0; 1]%float]) as Hdim
    by (by repeat constructor).
  split; [split; [exact append_insert_stores | by split]|].
  apply (add_to_index_creates_collection append_insert sample_index
           append_insert_stores 2 [[0; 1]%float] ["y"] None false false true 99
           world_empty); [reflexivity | reflexivity | reflexivity | exact Hdim].
Defined.

Lemma add_to_index_overwrite_warned_witness :
  (stores_rows append_insert ∧ store world_x = Some collection_x ∧
   Forall (λ e : list float, length e = dim collection_x) [[0; 1]%float]) ∧
  let out := add_to_index append_insert sample_index (Arr2 2 [[0; 1]%float]) ["x"] None
               true true true 100 world_x in
  out.1 = inr () ∧
  store out.2
  = Some {| dim := dim collection_x;
            rows := filter (λ r, pk r ∉ ["x"]) (rows collection_x)
                    ++ rows_of_columns ["x"] [[0; 1]%float] ["x"] |}.
Proof.
  assert (Forall (λ e : list float, length e = dim collection_x) [[0; 1]%float]) as Hdim
    by (by repeat constructor).
  split; [split; [exact append_insert_stores | by split]|].
  apply (add_to_index_overwrite_warned append_insert sample_index
           append_insert_stores 2 [[0; 1]%float] ["x"] None 99 world_x collection_x);
    [reflexivity | reflexivity | reflexivity | exact Hdim].
Defined.

Lemma add_to_index_batch_size_0_witness :
  store world_x = Some collection_x ∧
  add_to_index append_insert sample_index (Arr2 2 [[0; 1]%float]) ["y"] None
    true true false 0 world_x
  = (inr (),
     {| store := store world_x; calls := calls world_x ++ [HasCollection];
        logged := logged world_x |}).
Proof.
  split; [reflexivity|].
  apply (add_to_index_batch_size_0 append_insert sample_index (Arr2 2 [[0; 1]%float])
           ["y"] None world_x collection_x).
  reflexivity.
Defined.

Lemma add_then_get_embeddings_witness :
  (stores_rows append_insert ∧ patches_field (config sample_index) = None ∧
   NoDup ["y"] ∧ "y" ∉ pk <$> rows collection_x) ∧
  let w' := (add_to_index append_insert sample_index (Arr2 2 [[0; 1]%float]) ["y"] None
               true true false 100 world_x).2 in
  (get_embeddings scan_search sample_index (Some ["y"]) None false false w').1
  = inr ([[0; 1]%float], ["y"], None).
Proof.
  assert (NoDup ["y"]) as Hnodup by apply NoDup_singleton.
  assert ("y" ∉ pk <$> rows collection_x) as Hfresh by compute_done.
  assert (Forall (λ e : list float, length e = dim collection_x) [[0; 1]%float]) as Hdim
    by (by repeat constructor).
  split; [split; [exact append_insert_stores | by repeat split]|].
  apply (add_then_get_embeddings scan_search append_insert sample_index
           append_insert_stores 2 [[0; 1]%float] ["y"] 99 0 "y" [0; 1]%float false false
           world_x collection_x);
    [reflexivity | reflexivity | reflexivity | exact Hdim | exact Hnodup
    | reflexivity | reflexivity | exact Hfresh].
Defined.

Lemma kneighbors_vector_witness :
  ((3 ≤ 16384)%Z ∧ Some "mean" ∈ [None; Some "mean"] ∧
   store world_x = Some collection_x) ∧
  _kneighbors scan_search sample_index (Some (QueryArray (Arr1 [1; 0]%float)))
    (Some 3%Z) false (Some "mean") false world_x
  = (match scan_search collection_x [1; 0]%float (PkIn (index_ids sample_index)) 3 with
     | inl e => inl e
     | inr found => inr (Flat (hit_id <$> found), None)
     end,
     {| store := store world_x;
        calls := calls world_x
                 ++ [Search [1; 0]%float (PkIn (index_ids sample_index)) 3];
        logged := logged world_x |}).
Proof.
  assert (Some "mean" ∈ [None; Some "mean"]) as Hagg by (right; left).
  split; [split; [lia | by split]|].
  apply (kneighbors_vector scan_search sample_index [1; 0]%float 3 (Some "mean") false
           world_x collection_x); [lia | exact Hagg | reflexivity].
Defined.

Lemma kneighbors_unknown_ids_witness :
  ((3 ≤ 16384)%Z ∧ None ∈ [None; Some "mean"] ∧ store world_x = Some collection_x ∧
   ∀ i : id, i ∈ ["p"; "q"] → i ∉ pk <$> rows collection_x) ∧
  (_kneighbors scan_search sample_index (Some (QueryIds ["p"; "q"])) (Some 3%Z)
     false None false world_x).1
  = match scan_search collection_x [] (PkIn (index_ids sample_index)) 3 with
    | inl e => inl e
    | inr found => inr (Flat (hit_id <$> found), None)
    end.
Proof.
  assert ((None : option string) ∈ [None; Some "mean"]) as Hagg by left.
  assert (∀ i : id, i ∈ ["p"; "q"] → i ∉ pk <$> rows collection_x) as Hids.
  { intros i Hi Hin. simpl in Hin. apply list_elem_of_singleton in Hin as ->.
    apply elem_of_cons in Hi as [Hi|Hi]; [done|].
    by apply list_elem_of_singleton in Hi. }
  split; [split; [lia | by repeat split]|].
  apply (kneighbors_unknown_ids scan_search sample_index ["p"; "q"] 3 None false
           world_x collection_x); [lia | exact Hagg | reflexivity | exact Hids].
Defined.

Lemma get_embeddings_patch_probe_witness :
  patches_field (config patch_index) = Some "ground_truth" ∧
  adds (λ c, match c with
             | Query _ _ => True
             | Search q e limit =>
                 Forall (λ x, x = 0%float) q ∧
                 (∃ batch_ids, batch_ids ∈ iter_batches ["s"] 100 ∧
                               e = PkIn batch_ids) ∧
                 limit = 100%Z
             | _ => False
             end)
    (get_embeddings scan_search patch_index (Some ["s"]) (Some ["l"]) true false).
Proof.
  split; [reflexivity|].
  apply (get_embeddings_patch_probe scan_search patch_index ["s"] (Some ["l"]) true
           false "ground_truth").
  reflexivity.
Defined.
